(** * ztd.text: the execution (narrow, locale-based) encoding

    A shallow embedding of [execution::encode_one] and [execution::decode_one]
    of [include/ztd/text/execution.hpp].  The branch compiled when
    [ZTD_TEXT_PLATFORM_WINDOWS_I_] is off, built on the C runtime's
    [c32rtomb] and [mbrtoc32], comes first; the branch for Windows is in
    [Module Windows].

    The C runtime is not part of the repository.  It is taken as a parameter
    (record [c_runtime]); concrete runtimes are given further down and are
    used to run the code on inputs. *)

From Stdlib Require Import ZArith Lia.
From stdpp Require Import base list.

Local Open Scope Z_scope.

(** ** Data model *)

(** [code_unit] is [char]: the value of one byte, 0..255.
    [code_point] is [unicode_code_point], a [char32_t]. *)
Definition code_unit : Type := Z.
Definition code_point : Type := Z.

(** [std::size_t], 64 bits wide.  [size_t_cast z] is [static_cast<std::size_t>(z)]. *)
Definition size_t : Type := Z.
Definition size_t_cast (z : Z) : size_t := z mod 2 ^ 64.

(** [ztd::text::encoding_error]. *)
Inductive encoding_error : Type :=
| ok
| invalid_sequence
| incomplete_sequence
| insufficient_output_space.

(** What one call of [mbrtoc32 (pc32, s, n, ps)] leaves behind: the returned
    [size_t], the value stored through [pc32] (if the call stored one) and the
    [mbstate_t] left in [*ps]. *)
Record mbrtoc32_result (mbstate : Type) : Type := MbResult {
  mb_res : size_t;
  mb_c32 : option code_point;
  mb_state : mbstate
}.
Arguments MbResult {mbstate} _ _ _.
Arguments mb_res {mbstate} _.
Arguments mb_c32 {mbstate} _.
Arguments mb_state {mbstate} _.

(** What one call of [c32rtomb (s, c32, ps)] leaves behind: the returned
    [size_t], the bytes stored from [s\[0\]] on and the [mbstate_t] left in [*ps]. *)
Record c32rtomb_result (mbstate : Type) : Type := C32Result {
  c32_res : size_t;
  c32_bytes : list code_unit;
  c32_state : mbstate
}.
Arguments C32Result {mbstate} _ _ _.
Arguments c32_res {mbstate} _.
Arguments c32_bytes {mbstate} _.
Arguments c32_state {mbstate} _.

(** The part of the C runtime the encoding uses.  In [mbrtoc32 s ps] the
    argument [s] is [None] for a null pointer and [Some bytes] for a pointer
    to the [n] bytes the call may read. *)
Record c_runtime : Type := CRuntime {
  mbstate_t : Type;
  mbstate_zero : mbstate_t;
  MB_LEN_MAX : nat;
  mbrtoc32 : option (list code_unit) -> mbstate_t -> mbrtoc32_result mbstate_t;
  c32rtomb : code_point -> mbstate_t -> c32rtomb_result mbstate_t
}.

(** An output range [\[outit, outlast)]: [ahead] holds the cells from [outit]
    to [outlast]; [behind] holds, in order, the cells the iterator has already
    passed, so that what was written stays observable. *)
Record out_range (A : Type) : Type := OutRange {
  behind : list A;
  ahead : list A
}.
Arguments OutRange {A} _ _.
Arguments behind {A} _.
Arguments ahead {A} _.

(** [init == inlast] for an input range, given as the list of what is left
    to read. *)
Definition exhausted {A : Type} (l : list A) : bool :=
  match l with
  | [] => true
  | _ :: _ => false
  end.

(** [outit == outlast]. *)
Definition at_end {A : Type} (o : out_range A) : bool :=
  match ahead o with
  | [] => true
  | _ :: _ => false
  end.

(** [*outit = v; outit = next(outit)].  There is no cell to write when
    [outit == outlast]. *)
Definition put {A : Type} (o : out_range A) (v : A) : option (out_range A) :=
  match ahead o with
  | [] => None
  | _ :: rest => Some (OutRange (behind o ++ [v]) rest)
  end.

(** [std::span<T>(ptr, n)]: [span_data] is the array [ptr] points into, read
    from [ptr] on, and [span_size] the extent [n] the span announces. *)
Record span (A : Type) : Type := Span {
  span_data : list A;
  span_size : nat
}.
Arguments Span {A} _ _.
Arguments span_data {A} _.
Arguments span_size {A} _.

Definition empty_span {A : Type} : span A := Span [] 0.

(** [encode_result] and [decode_result]: the rest of the input, the rest of
    the output, the state the result refers to (as it is when the call
    returns) and the error code. *)
Record result (I O S : Type) : Type := Result {
  input : list I;
  output : out_range O;
  state : S;
  error_code : encoding_error
}.
Arguments Result {I O S} _ _ _ _.
Arguments input {I O S} _.
Arguments output {I O S} _.
Arguments state {I O S} _.
Arguments error_code {I O S} _.

(** An error handler.  [is_ignorable] is [is_ignorable_error_handler_v] of its
    type; [invoke] is its call operator, applied to the result so far and to
    the span of elements that were read and not converted. *)
Record error_handler (R E : Type) : Type := ErrorHandler {
  is_ignorable : bool;
  invoke : R -> span E -> R
}.
Arguments ErrorHandler {R E} _ _.
Arguments is_ignorable {R E} _.
Arguments invoke {R E} _ _ _.

(** What a call does: it returns a value, or its behaviour is undefined
    (a read or write outside an array or range, or control reaching the end
    of the function without a [return]). *)
Inductive outcome (R : Type) : Type :=
| Returns (r : R)
| Undefined.
Arguments Returns {R} _.
Arguments Undefined {R}.

(** How the copy loop of [encode_one] ends. *)
Inductive copy_end : Type :=
| Copied (o : out_range code_unit)
| OutOfSpace (o : out_range code_unit)
| CopyUndefined.

(** An array after a callee stored [stored] from its first cell on. *)
Definition store_at_front {A : Type} (stored arr : list A) : list A :=
  take (length arr) (stored ++ drop (length stored) arr).

Section Execution.

Variable rt : c_runtime.

(** [execution::__decode_state] and [execution::__encode_state]. *)
Record decode_state : Type := DecodeState {
  narrow_state : mbstate_t rt;
  output_pending : bool
}.

Record encode_state : Type := EncodeState {
  enc_narrow_state : mbstate_t rt;
  enc_output_pending : bool
}.

(** The constructors: the narrow state is value-initialised, then primed with
    the conversion of a null character. *)
Definition new_decode_state : decode_state :=
  DecodeState (mb_state (mbrtoc32 rt (Some [0]) (mbstate_zero rt))) false.

Definition new_encode_state : encode_state :=
  EncodeState (c32_state (c32rtomb rt 0 (mbstate_zero rt))) false.

Definition max_code_points : nat := 7.
Definition max_code_units : nat := MB_LEN_MAX rt.
Definition replacement_code_units : list code_unit := [63].

Definition encode_result : Type := result code_point code_unit encode_state.
Definition decode_result : Type := result code_unit code_point decode_state.
Definition encode_handler : Type := error_handler encode_result code_point.
Definition decode_handler : Type := error_handler decode_result code_unit.

(** The loop [for (it = __intermediary_output; __res-- > 0; ++it)] of
    [encode_one].  [it] is what is left of the array from [it] on. *)
Fixpoint copy_units (call_error_handler : bool) (it : list code_unit)
    (res : size_t) (o : out_range code_unit) : copy_end :=
  if 0 <? res then
    if call_error_handler && at_end o then OutOfSpace o
    else
      match it with
      | [] => CopyUndefined
      | u :: it' =>
          match put o u with
          | None => CopyUndefined
          | Some o' => copy_units call_error_handler it' (res - 1) o'
          end
      end
  else Copied o.

(** [execution::encode_one]. *)
Definition encode_one (inp : list code_point) (outp : out_range code_unit)
    (h : encode_handler) (s : encode_state) : outcome encode_result :=
  let call_error_handler := negb (is_ignorable h) in
  match inp with
  | [] => Returns (Result inp outp s ok)
  | codepoint :: init =>
      if call_error_handler && at_end outp then
        Returns (invoke h (Result inp outp s insufficient_output_space) empty_span)
      else
        let r := c32rtomb rt codepoint (enc_narrow_state s) in
        let s' := EncodeState (c32_state r) (enc_output_pending s) in
        let intermediary_output :=
          store_at_front (c32_bytes r) (replicate (MB_LEN_MAX rt) 0) in
        if call_error_handler && (c32_res r =? size_t_cast (-1)) then
          Returns (invoke h (Result init outp s' invalid_sequence)
                     (Span [codepoint] 1))
        else
          match copy_units call_error_handler intermediary_output (c32_res r) outp with
          | Copied o => Returns (Result init o s' ok)
          | OutOfSpace o =>
              Returns (invoke h (Result init o s' insufficient_output_space)
                         (Span [codepoint] 1))
          | CopyUndefined => Undefined
          end
  end.

(** The drain branch of [decode_one], taken when [__s.__output_pending]. *)
Definition decode_drain (init : list code_unit) (outp : out_range code_point)
    (h : decode_handler) (s : decode_state) : outcome decode_result :=
  let call_error_handler := negb (is_ignorable h) in
  let r := mbrtoc32 rt None (narrow_state s) in
  let intermediary_output0 := default 0 (mb_c32 r) in
  if call_error_handler && (mb_res r =? size_t_cast (-1)) then
    Returns (invoke h
               (Result init outp (DecodeState (mb_state r) (output_pending s))
                  invalid_sequence)
               empty_span)
  else
    match put outp intermediary_output0 with
    | None => Undefined
    | Some o =>
        Returns (Result init o
                   (DecodeState (mb_state r) (mb_res r =? size_t_cast (-3)))
                   ok)
    end.

(** The consume loop of [decode_one].  [remaining] counts the iterations the
    loop condition [__state_offset < max_code_units] still allows. *)
Fixpoint decode_loop (remaining : nat) (state_offset state_count : nat)
    (intermediary_input : list code_unit) (init : list code_unit)
    (outp : out_range code_point) (h : decode_handler) (s : decode_state)
    : outcome decode_result :=
  let call_error_handler := negb (is_ignorable h) in
  match remaining with
  | O =>
      if call_error_handler then
        Returns (invoke h (Result init outp s incomplete_sequence)
                   (Span intermediary_input state_count))
      else Undefined
  | S remaining' =>
      match init with
      | [] => Undefined
      | u :: init' =>
          let preserved_state := narrow_state s in
          let intermediary_input := <[state_offset := u]> intermediary_input in
          let r := mbrtoc32 rt (Some (take state_count intermediary_input))
                     preserved_state in
          let preserved_state := mb_state r in
          let intermediary_output0 := default 0 (mb_c32 r) in
          let res := mb_res r in
          if res =? size_t_cast (-2) then
            if call_error_handler && exhausted init' then
              Returns (invoke h (Result init' outp s incomplete_sequence)
                         (Span intermediary_input state_count))
            else
              decode_loop remaining' (S state_offset) (S state_count)
                intermediary_input init' outp h s
          else if res =? size_t_cast (-3) then
            match put outp intermediary_output0 with
            | None => Undefined
            | Some o =>
                Returns (Result init' o (DecodeState preserved_state true) ok)
            end
          else if res =? size_t_cast (-1) then
            if call_error_handler then
              Returns (invoke h (Result init' outp s invalid_sequence)
                         (Span intermediary_input state_count))
            else
              decode_loop remaining' (S state_offset) (S state_count)
                intermediary_input init' outp h s
          else if res =? 0 then
            Returns (Result init' outp s ok)
          else
            match put outp intermediary_output0 with
            | None => Undefined
            | Some o =>
                Returns (Result init' o
                           (DecodeState preserved_state (output_pending s)) ok)
            end
      end
  end.

(** [execution::decode_one]. *)
Definition decode_one (inp : list code_unit) (outp : out_range code_point)
    (h : decode_handler) (s : decode_state) : outcome decode_result :=
  let call_error_handler := negb (is_ignorable h) in
  match inp with
  | [] => Returns (Result inp outp s ok)
  | _ :: _ =>
      if call_error_handler && at_end outp then
        Returns (invoke h (Result inp outp s insufficient_output_space) empty_span)
      else if output_pending s then decode_drain inp outp h s
      else
        decode_loop max_code_units 0 1 (replicate max_code_units 0)
          inp outp h s
  end.

End Execution.

(** ** Concrete C runtimes

    Both follow the C standard's description of [mbrtoc32] and [c32rtomb];
    with a null [s], [mbrtoc32] behaves as if [pc32] were null, [s] pointed
    to a null byte and [n] were 1, so it stores nothing.  [MB_LEN_MAX] is 16,
    its value in glibc. *)

Module AsciiLocale.

(** A single-byte locale whose character set is US-ASCII.  The conversion
    state carries nothing. *)
Definition mbrtoc32 (s : option (list code_unit)) (ps : unit)
    : mbrtoc32_result unit :=
  match s with
  | None => MbResult 0 None ps
  | Some [] => MbResult (size_t_cast (-2)) None ps
  | Some (b :: _) =>
      if b =? 0 then MbResult 0 (Some 0) ps
      else if (0 <? b) && (b <? 128) then MbResult 1 (Some b) ps
      else MbResult (size_t_cast (-1)) None ps
  end.

Definition c32rtomb (c : code_point) (ps : unit) : c32rtomb_result unit :=
  if (0 <=? c) && (c <? 128) then C32Result 1 [c] ps
  else C32Result (size_t_cast (-1)) [] ps.

Definition runtime : c_runtime := CRuntime unit tt 16 mbrtoc32 c32rtomb.

End AsciiLocale.

Module Utf8Locale.

(** The conversion state holds the bytes of a character that earlier calls
    took in without completing it. *)
Definition mbstate : Type := list code_unit.

(** The length of the sequence a lead byte announces. *)
Definition sequence_length (b0 : code_unit) : option nat :=
  if (0 <=? b0) && (b0 <? 128) then Some 1%nat
  else if (194 <=? b0) && (b0 <? 224) then Some 2%nat
  else if (224 <=? b0) && (b0 <? 240) then Some 3%nat
  else if (240 <=? b0) && (b0 <? 245) then Some 4%nat
  else None.

Definition is_continuation (b : code_unit) : bool := (128 <=? b) && (b <? 192).

Definition sequence_value (bs : list code_unit) : code_point :=
  match bs with
  | [b0] => b0
  | [b0; b1] => Z.lor (Z.shiftl (Z.land b0 31) 6) (Z.land b1 63)
  | [b0; b1; b2] =>
      Z.lor (Z.shiftl (Z.land b0 15) 12)
        (Z.lor (Z.shiftl (Z.land b1 63) 6) (Z.land b2 63))
  | [b0; b1; b2; b3] =>
      Z.lor (Z.shiftl (Z.land b0 7) 18)
        (Z.lor (Z.shiftl (Z.land b1 63) 12)
           (Z.lor (Z.shiftl (Z.land b2 63) 6) (Z.land b3 63)))
  | _ => 0
  end.

(** The shortest form of a scalar value, and nothing else, is accepted. *)
Definition well_formed (c : code_point) (len : nat) : bool :=
  match len with
  | 1%nat => (0 <=? c) && (c <? 128)
  | 2%nat => (128 <=? c) && (c <? 2048)
  | 3%nat => (2048 <=? c) && (c <? 65536) && negb ((55296 <=? c) && (c <? 57344))
  | 4%nat => (65536 <=? c) && (c <? 1114112)
  | _ => false
  end.

Definition mbrtoc32 (s : option (list code_unit)) (ps : mbstate)
    : mbrtoc32_result mbstate :=
  let stores := match s with None => false | Some _ => true end in
  let all := ps ++ match s with None => [0] | Some bs => bs end in
  match all with
  | [] => MbResult (size_t_cast (-2)) None ps
  | b0 :: _ =>
      match sequence_length b0 with
      | None => MbResult (size_t_cast (-1)) None ps
      | Some need =>
          let avail := take need all in
          if forallb is_continuation (drop 1 avail) then
            if (length avail <? need)%nat then
              MbResult (size_t_cast (-2)) None avail
            else
              let c := sequence_value avail in
              if well_formed c need then
                MbResult (if c =? 0 then 0 else Z.of_nat (need - length ps))
                  (if stores then Some c else None) []
              else MbResult (size_t_cast (-1)) None ps
          else MbResult (size_t_cast (-1)) None ps
      end
  end.

Definition c32rtomb (c : code_point) (ps : mbstate) : c32rtomb_result mbstate :=
  if (0 <=? c) && (c <? 128) then C32Result 1 [c] ps
  else if (128 <=? c) && (c <? 2048) then
    C32Result 2 [Z.lor 192 (Z.shiftr c 6); Z.lor 128 (Z.land c 63)] ps
  else if (2048 <=? c) && (c <? 65536) && negb ((55296 <=? c) && (c <? 57344)) then
    C32Result 3 [Z.lor 224 (Z.shiftr c 12);
                 Z.lor 128 (Z.land (Z.shiftr c 6) 63);
                 Z.lor 128 (Z.land c 63)] ps
  else if (65536 <=? c) && (c <? 1114112) then
    C32Result 4 [Z.lor 240 (Z.shiftr c 18);
                 Z.lor 128 (Z.land (Z.shiftr c 12) 63);
                 Z.lor 128 (Z.land (Z.shiftr c 6) 63);
                 Z.lor 128 (Z.land c 63)] ps
  else C32Result (size_t_cast (-1)) [] ps.

Definition runtime : c_runtime := CRuntime mbstate [] 16 mbrtoc32 c32rtomb.

End Utf8Locale.

Module ShiftLocale.

(** A 7-bit locale with two character sets, switched in the ISO 2022 way:
    the unit 14 (SO) invokes the second set and the unit 15 (SI) the first.
    The first set is US-ASCII; in the second the units 33..95 stand for
    U+FF61..U+FF9F, as in 7-bit JIS X 0201.  The conversion state records
    which set is invoked. *)
Definition mbstate : Type := bool.

(** [scan bs shifted taken]: the units [bs] read from a state [shifted],
    [taken] units of shift sequence having been read before them. *)
Fixpoint scan (bs : list code_unit) (shifted : bool) (taken : nat)
    : mbrtoc32_result mbstate :=
  match bs with
  | [] => MbResult (size_t_cast (-2)) None shifted
  | b :: bs' =>
      if b =? 14 then scan bs' true (S taken)
      else if b =? 15 then scan bs' false (S taken)
      else if b =? 0 then MbResult 0 (Some 0) false
      else if shifted then
        if (33 <=? b) && (b <? 96) then
          MbResult (Z.of_nat (S taken)) (Some (65377 + (b - 33))) shifted
        else MbResult (size_t_cast (-1)) None shifted
      else if (0 <? b) && (b <? 128) then
        MbResult (Z.of_nat (S taken)) (Some b) shifted
      else MbResult (size_t_cast (-1)) None shifted
  end.

Definition mbrtoc32 (s : option (list code_unit)) (ps : mbstate)
    : mbrtoc32_result mbstate :=
  match s with
  | None => MbResult 0 None false
  | Some bs => scan bs ps 0
  end.

Definition c32rtomb (c : code_point) (ps : mbstate) : c32rtomb_result mbstate :=
  if (0 <=? c) && (c <? 128) && negb (c =? 14) && negb (c =? 15) then
    if ps then C32Result 2 [15; c] false else C32Result 1 [c] false
  else if (65377 <=? c) && (c <? 65440) then
    if ps then C32Result 1 [c - 65377 + 33] true
    else C32Result 2 [14; c - 65377 + 33] true
  else C32Result (size_t_cast (-1)) [] ps.

Definition runtime : c_runtime := CRuntime mbstate false 16 mbrtoc32 c32rtomb.

End ShiftLocale.

Module PairLocale.

(** A single-byte locale in which one unit, 136, stands for two code points,
    U+0B9C U+0BCD (the way TSCII writes some Tamil letters).  As the C
    standard has it, the call that reads the unit stores the first code
    point, and the next call stores the second one, reads no input and
    answers [(size_t)-3].  The conversion state holds the code point owed. *)
Definition mbstate : Type := option code_point.

Definition mbrtoc32 (s : option (list code_unit)) (ps : mbstate)
    : mbrtoc32_result mbstate :=
  match ps with
  | Some owed =>
      MbResult (size_t_cast (-3))
        (match s with None => None | Some _ => Some owed end) None
  | None =>
      match s with
      | None => MbResult 0 None None
      | Some [] => MbResult (size_t_cast (-2)) None None
      | Some (b :: _) =>
          if b =? 0 then MbResult 0 (Some 0) None
          else if (0 <? b) && (b <? 128) then MbResult 1 (Some b) None
          else if b =? 136 then MbResult 1 (Some 2972) (Some 3021)
          else MbResult (size_t_cast (-1)) None None
      end
  end.

Definition c32rtomb (c : code_point) (ps : mbstate) : c32rtomb_result mbstate :=
  if (0 <=? c) && (c <? 128) then C32Result 1 [c] ps
  else C32Result (size_t_cast (-1)) [] ps.

Definition runtime : c_runtime := CRuntime mbstate None 16 mbrtoc32 c32rtomb.

End PairLocale.

(** ** The branch for Windows

    The code compiled when [ZTD_TEXT_PLATFORM_WINDOWS_I_] is on (and
    [ZTD_TEXT_PLATFORM_MINGW] is 0).  It converts through UTF-16 with
    [WideCharToMultiByte] and [MultiByteToWideChar], or hands over to the
    UTF-8 encoding when that is the active code page.  Those functions, and
    the UTF-8 and UTF-16 encodings of the library, are not in this file:
    they are parameters (record [runtime]). *)

Module Windows.

Definition wchar_t : Type := Z.

Definition CP_UTF8 : Z := 65001.
Definition ERROR_INSUFFICIENT_BUFFER : Z := 122.
Definition ERROR_NO_UNICODE_TRANSLATION : Z := 1113.

(** What a call of [encode_one] or [decode_one] of the UTF-8 or UTF-16
    encoding leaves: the input, output and error code of its result, and the
    elements its handler recorded ([_M_code_points], [_M_code_units]). *)
Record intermediate_result (I O E : Type) : Type := IntermediateResult {
  ir_input : list I;
  ir_output : out_range O;
  ir_error_code : encoding_error;
  ir_recorded : span E
}.
Arguments IntermediateResult {I O E} _ _ _ _.
Arguments ir_input {I O E} _.
Arguments ir_output {I O E} _.
Arguments ir_error_code {I O E} _.
Arguments ir_recorded {I O E} _.

(** What a call of [WideCharToMultiByte] or [MultiByteToWideChar] leaves: the
    [int] it returns, the elements it stored from the start of its output
    array, and the value [GetLastError ()] has after it. *)
Record conversion (A : Type) : Type := Conversion {
  conv_res : Z;
  conv_stored : list A;
  conv_last_error : Z
}.
Arguments Conversion {A} _ _ _.
Arguments conv_res {A} _.
Arguments conv_stored {A} _.
Arguments conv_last_error {A} _.

(** The collaborators.  The [bool] given to the encodings is the first
    template argument of the handler they are called with, that is
    [!__call_error_handler]; each call is made on a fresh state of the
    encoding.  [WideCharToMultiByte] and [MultiByteToWideChar] are given the
    code page and the elements they may read; their flags and the sizes of
    their output arrays are fixed in the code. *)
Record runtime : Type := Runtime {
  crt : c_runtime;
  determine_active_code_page : Z;
  utf8_encode_one :
    list code_point -> out_range code_unit -> bool ->
    intermediate_result code_point code_unit code_point;
  utf8_decode_one :
    list code_unit -> out_range code_point -> bool ->
    intermediate_result code_unit code_point code_unit;
  utf16_encode_one :
    list code_point -> out_range wchar_t -> bool ->
    intermediate_result code_point wchar_t code_point;
  utf16_encode_one_wide :
    list wchar_t -> out_range code_point -> bool ->
    intermediate_result wchar_t code_point wchar_t;
  WideCharToMultiByte : Z -> list wchar_t -> conversion code_unit;
  MultiByteToWideChar : Z -> list code_unit -> conversion wchar_t
}.

Definition is_ok (e : encoding_error) : bool :=
  match e with
  | ok => true
  | _ => false
  end.

Section Execution.

Variable w : runtime.

(** The loop [for (it = __intermediary_output; __res-- > 0;)] of
    [encode_one]: [it] is not advanced, so each round reads the unit it
    points to, the first of the array.  [written] and [cells] are the cells
    behind and ahead of [__outit]. *)
Fixpoint copy_units (call_error_handler : bool) (it : list code_unit)
    (res : Z) (written cells : list code_unit) : copy_end :=
  if 0 <? res then
    match cells with
    | [] =>
        if call_error_handler then OutOfSpace (OutRange written [])
        else CopyUndefined
    | _ :: rest =>
        match it with
        | [] => CopyUndefined
        | u :: _ => copy_units call_error_handler it (res - 1) (written ++ [u]) rest
        end
    end
  else Copied (OutRange written cells).

(** [execution::encode_one]. *)
Definition encode_one (inp : list code_point) (outp : out_range code_unit)
    (h : encode_handler (crt w)) (s : encode_state (crt w))
    : outcome (encode_result (crt w)) :=
  let call_error_handler := negb (is_ignorable h) in
  if determine_active_code_page w =? CP_UTF8 then
    let ir := utf8_encode_one w inp outp (negb call_error_handler) in
    if call_error_handler && negb (is_ok (ir_error_code ir)) then
      Returns (invoke h (Result (ir_input ir) (ir_output ir) s (ir_error_code ir))
                 (ir_recorded ir))
    else Returns (Result (ir_input ir) (ir_output ir) s (ir_error_code ir))
  else if call_error_handler && at_end outp then
    Returns (invoke h (Result inp outp s insufficient_output_space) empty_span)
  else
    let ir := utf16_encode_one w inp (OutRange [] (replicate 8 0))
                (negb call_error_handler) in
    if call_error_handler && negb (is_ok (ir_error_code ir)) then
      Returns (invoke h (Result (ir_input ir) outp s (ir_error_code ir))
                 (ir_recorded ir))
    else
      let wide_read_buffer := behind (ir_output ir) in
      let conv := WideCharToMultiByte w (determine_active_code_page w)
                    wide_read_buffer in
      let intermediary_output :=
        store_at_front (conv_stored conv) (replicate 12 0) in
      if call_error_handler && (conv_res conv =? 0) then
        Returns (invoke h
                   (Result (ir_input ir) outp s
                      (if conv_last_error conv =? ERROR_INSUFFICIENT_BUFFER
                       then insufficient_output_space else invalid_sequence))
                   (ir_recorded ir))
      else
        match copy_units call_error_handler intermediary_output (conv_res conv)
                (behind outp) (ahead outp) with
        | Copied o => Returns (Result (ir_input ir) o s (ir_error_code ir))
        | OutOfSpace o =>
            Returns (invoke h (Result (ir_input ir) o s insufficient_output_space)
                       (ir_recorded ir))
        | CopyUndefined => Undefined
        end.

(** The part of the loop body of [decode_one] after [MultiByteToWideChar]:
    the wide characters go through the UTF-16 encoding into the output. *)
Definition decode_finish (wide_intermediary : list wchar_t) (res : Z)
    (state_count : nat) (intermediary_input init : list code_unit)
    (outp : out_range code_point) (h : decode_handler (crt w))
    (s : decode_state (crt w)) : outcome (decode_result (crt w)) :=
  let call_error_handler := negb (is_ignorable h) in
  let ir := utf16_encode_one_wide w (take (Z.to_nat res) wide_intermediary) outp
              (negb call_error_handler) in
  if call_error_handler && negb (is_ok (ir_error_code ir)) then
    Returns (invoke h (Result init (ir_output ir) s (ir_error_code ir))
               (Span intermediary_input state_count))
  else Returns (Result init (ir_output ir) s (ir_error_code ir)).

(** The loop of [decode_one].  [remaining] counts the iterations the loop
    condition [__state_count < max_code_units] still allows. *)
Fixpoint decode_loop (remaining : nat) (state_count : nat)
    (intermediary_input init : list code_unit) (outp : out_range code_point)
    (h : decode_handler (crt w)) (s : decode_state (crt w))
    : outcome (decode_result (crt w)) :=
  let call_error_handler := negb (is_ignorable h) in
  match remaining with
  | O =>
      if call_error_handler then
        Returns (invoke h (Result init outp s incomplete_sequence)
                   (Span intermediary_input state_count))
      else Undefined
  | S remaining' =>
      let conv := MultiByteToWideChar w (determine_active_code_page w)
                    (take state_count intermediary_input) in
      let wide_intermediary := store_at_front (conv_stored conv) (replicate 4 0) in
      if conv_res conv =? 0 then
        if conv_last_error conv =? ERROR_NO_UNICODE_TRANSLATION then
          if call_error_handler && exhausted init then
            Returns (invoke h (Result init outp s incomplete_sequence)
                       (Span intermediary_input state_count))
          else
            match init with
            | [] => Undefined
            | u :: init' =>
                decode_loop remaining' (S state_count)
                  (<[state_count := u]> intermediary_input) init' outp h s
            end
        else if call_error_handler then
          Returns (invoke h (Result init outp s invalid_sequence)
                     (Span intermediary_input state_count))
        else
          decode_finish wide_intermediary (conv_res conv) state_count
            intermediary_input init outp h s
      else
        decode_finish wide_intermediary (conv_res conv) state_count
          intermediary_input init outp h s
  end.

(** [execution::decode_one]. *)
Definition decode_one (inp : list code_unit) (outp : out_range code_point)
    (h : decode_handler (crt w)) (s : decode_state (crt w))
    : outcome (decode_result (crt w)) :=
  let call_error_handler := negb (is_ignorable h) in
  if determine_active_code_page w =? CP_UTF8 then
    let ir := utf8_decode_one w inp outp (negb call_error_handler) in
    if call_error_handler && negb (is_ok (ir_error_code ir)) then
      Returns (invoke h (Result (ir_input ir) (ir_output ir) s (ir_error_code ir))
                 (ir_recorded ir))
    else Returns (Result (ir_input ir) (ir_output ir) s (ir_error_code ir))
  else
    match inp with
    | [] => Returns (Result inp outp s ok)
    | u :: init =>
        if call_error_handler && at_end outp then
          Returns (invoke h (Result inp outp s insufficient_output_space) empty_span)
        else
          decode_loop (max_code_units (crt w) - 1) 1
            (<[0%nat := u]> (replicate (max_code_units (crt w)) 0)) init outp h s
    end.

End Execution.

(** A Windows whose active code page is 932 (Shift-JIS), cut down to
    US-ASCII and the letter U+3042, which is the two units 130, 160.  The
    UTF-16 encoding is given for scalar values of the basic plane; the UTF-8
    encoding is not reached on this code page.  [MB_LEN_MAX] is 5, its value
    with the Microsoft C runtime. *)
Module Cp932.

Definition utf16_encode_one (inp : list code_point) (outp : out_range wchar_t)
    (assume_valid : bool)
    : intermediate_result code_point wchar_t code_point :=
  match inp with
  | [] => IntermediateResult inp outp ok empty_span
  | c :: init =>
      if (0 <=? c) && (c <? 65536) && negb ((55296 <=? c) && (c <? 57344)) then
        match put outp c with
        | Some o => IntermediateResult init o ok empty_span
        | None => IntermediateResult inp outp insufficient_output_space empty_span
        end
      else IntermediateResult init outp invalid_sequence (Span [c] 1)
  end.

Definition utf16_encode_one_wide (inp : list wchar_t) (outp : out_range code_point)
    (assume_valid : bool)
    : intermediate_result wchar_t code_point wchar_t :=
  match inp with
  | [] => IntermediateResult inp outp ok empty_span
  | c :: init =>
      match put outp c with
      | Some o => IntermediateResult init o ok empty_span
      | None => IntermediateResult inp outp insufficient_output_space empty_span
      end
  end.

Definition WideCharToMultiByte (code_page : Z) (wide : list wchar_t)
    : conversion code_unit :=
  match wide with
  | [c] =>
      if (0 <=? c) && (c <? 128) then Conversion 1 [c] 0
      else if c =? 12354 then Conversion 2 [130; 160] 0
      else Conversion 0 [] ERROR_NO_UNICODE_TRANSLATION
  | _ => Conversion 0 [] 87
  end.

Definition MultiByteToWideChar (code_page : Z) (units : list code_unit)
    : conversion wchar_t :=
  match units with
  | [b] =>
      if (0 <=? b) && (b <? 128) then Conversion 1 [b] 0
      else Conversion 0 [] ERROR_NO_UNICODE_TRANSLATION
  | [130; 160] => Conversion 1 [12354] 0
  | _ => Conversion 0 [] ERROR_NO_UNICODE_TRANSLATION
  end.

Definition runtime : Windows.runtime :=
  Runtime (CRuntime unit tt 5 AsciiLocale.mbrtoc32 AsciiLocale.c32rtomb) 932
    (fun inp outp _ => IntermediateResult inp outp ok empty_span)
    (fun inp outp _ => IntermediateResult inp outp ok empty_span)
    utf16_encode_one utf16_encode_one_wide
    WideCharToMultiByte MultiByteToWideChar.

End Cp932.

End Windows.

(** The handler that hands back the result it is given
    ([ztd::text::pass_through_handler]). *)
Definition pass_through {R E : Type} : error_handler R E :=
  ErrorHandler false (fun r _ => r).

(** A handler of an ignorable type ([ztd::text::assume_valid_handler]): the
    encoding never calls it. *)
Definition assume_valid {R E : Type} : error_handler R E :=
  ErrorHandler true (fun r _ => r).

(** An output range over [n] fresh cells. *)
Definition fresh_output {A : Type} (n : nat) (filler : A) : out_range A :=
  OutRange [] (replicate n filler).

(** ** Properties of [encode_one] and [decode_one] *)

Section Properties.

Variable rt : c_runtime.

Implicit Types (s : decode_state rt) (es : encode_state rt).
Implicit Types (h : decode_handler rt) (eh : encode_handler rt).
Implicit Types (outp : out_range code_point) (eoutp : out_range code_unit).

Lemma at_end_true {A : Type} (o : out_range A) : ahead o = [] -> at_end o = true.
Proof. unfold at_end. intros ->. reflexivity. Qed.

Lemma at_end_false {A : Type} (o : out_range A) : ahead o <> [] -> at_end o = false.
Proof. unfold at_end. destruct (ahead o); [congruence | reflexivity]. Qed.

Lemma put_cell {A : Type} (o : out_range A) (v cell : A) (rest : list A) :
  ahead o = cell :: rest -> put o v = Some (OutRange (behind o ++ [v]) rest).
Proof. unfold put. intros ->. reflexivity. Qed.

(** In the build on the C runtime, on an empty input range both operations
    return [ok] at once, with the input, the output and the state as they
    were given, whatever the state, the output range (exhausted or not) and
    the handler.  The branch for Windows of [encode_one] has no such return
    (see [windows_encode_one_rejects_empty_input]). *)
Theorem empty_input_is_ok s es h eh outp eoutp :
  decode_one rt [] outp h s = Returns (Result [] outp s ok) /\
  encode_one rt [] eoutp eh es = Returns (Result [] eoutp es ok).
Proof. split; reflexivity. Qed.

(** C10: with input left to read, no output cell and a handler that is not
    ignorable, [decode_one] hands the handler [insufficient_output_space]
    with the input, the output and the state exactly as given (pending or
    not) and an empty span. *)
Theorem decode_one_no_output_space inp outp h s :
  inp <> [] ->
  ahead outp = [] ->
  is_ignorable h = false ->
  decode_one rt inp outp h s =
    Returns (invoke h (Result inp outp s insufficient_output_space) empty_span).
Proof.
  intros Hinp Hout Hign. unfold decode_one.
  destruct inp as [|u inp']; [congruence|].
  rewrite Hign, (at_end_true _ Hout). reflexivity.
Qed.

(** C5, as amended: with a code point to read, no output cell and a handler
    that is not ignorable, [encode_one] hands the handler
    [insufficient_output_space] with the input, the output and the state
    exactly as given and an empty span. *)
Theorem encode_one_no_output_space c init eoutp eh es :
  ahead eoutp = [] ->
  is_ignorable eh = false ->
  encode_one rt (c :: init) eoutp eh es =
    Returns (invoke eh (Result (c :: init) eoutp es insufficient_output_space)
               empty_span).
Proof.
  intros Hout Hign. unfold encode_one.
  rewrite Hign, (at_end_true _ Hout). reflexivity.
Qed.

(** C6, as amended: when the handler is not ignorable, the output range has
    a cell and [c32rtomb] answers [(size_t)-1] for the code point read,
    [encode_one] hands the handler [invalid_sequence] with that one code
    point, the input past it and the output as given. *)
Theorem encode_one_unrepresentable c init eoutp eh es :
  is_ignorable eh = false ->
  ahead eoutp <> [] ->
  c32_res (c32rtomb rt c (enc_narrow_state rt es)) = size_t_cast (-1) ->
  encode_one rt (c :: init) eoutp eh es =
    Returns (invoke eh
               (Result init eoutp
                  (EncodeState rt (c32_state (c32rtomb rt c (enc_narrow_state rt es)))
                     (enc_output_pending rt es))
                  invalid_sequence)
               (Span [c] 1)).
Proof.
  intros Hign Hout Hres. unfold encode_one.
  rewrite Hign, (at_end_false _ Hout), Hres. reflexivity.
Qed.

(** *** The copy loop of [encode_one] *)

Lemma store_at_front_length {A : Type} (stored arr : list A) :
  (length stored <= length arr)%nat ->
  length (store_at_front stored arr) = length arr.
Proof.
  intros Hle. unfold store_at_front.
  rewrite length_take, length_app, length_drop. lia.
Qed.

Lemma store_at_front_take {A : Type} (stored arr : list A) (n : nat) :
  (n <= length stored)%nat -> (length stored <= length arr)%nat ->
  take n (store_at_front stored arr) = take n stored.
Proof.
  intros Hn Hle. unfold store_at_front.
  rewrite take_take, Nat.min_l by lia.
  apply take_app_le. exact Hn.
Qed.

(** With the space check on, copying more units than the output has cells
    fills the output and stops there. *)
Lemma copy_units_out_of_space (cells : list code_unit) :
  forall (it : list code_unit) (res : size_t) (written : list code_unit),
    (length cells <= length it)%nat ->
    Z.of_nat (length cells) < res ->
    copy_units true it res (OutRange written cells) =
      OutOfSpace (OutRange (written ++ take (length cells) it) []).
Proof.
  induction cells as [|cell cells IH]; intros it res written Hlen Hres.
  - cbn [length] in *. destruct it as [|u it'];
      cbn [copy_units]; (destruct (0 <? res) eqn:E; [|lia]);
      cbn; rewrite app_nil_r; reflexivity.
  - cbn [length] in *. destruct it as [|u it']; [cbn in Hlen; lia|].
    cbn [copy_units]. destruct (0 <? res) eqn:E; [|lia].
    cbn [andb at_end ahead put behind]. cbn [length] in Hlen.
    rewrite IH by lia.
    cbn [take]. rewrite <- app_assoc. reflexivity.
Qed.

(** With enough cells, the loop copies the first [res] units of the array. *)
Lemma copy_units_all (call_error_handler : bool) (n : nat) :
  forall (it cells written : list code_unit),
    (n <= length it)%nat ->
    (n <= length cells)%nat ->
    copy_units call_error_handler it (Z.of_nat n) (OutRange written cells) =
      Copied (OutRange (written ++ take n it) (drop n cells)).
Proof.
  induction n as [|n IH]; intros it cells written Hit Hcells.
  - destruct it; cbn; rewrite app_nil_r; reflexivity.
  - destruct it as [|u it']; [cbn in Hit; lia|].
    destruct cells as [|cell cells']; [cbn in Hcells; lia|].
    cbn [copy_units]. destruct (0 <? Z.of_nat (S n)) eqn:E; [|apply Z.ltb_ge in E; lia].
    cbn [at_end ahead put behind]. rewrite andb_false_r.
    replace (Z.of_nat (S n) - 1) with (Z.of_nat n) by lia.
    cbn [length] in *. rewrite IH by lia.
    cbn [take drop]. rewrite <- app_assoc. reflexivity.
Qed.

(** With the space check off, the loop never stops for lack of space. *)
Lemma copy_units_unchecked (it : list code_unit) :
  forall (res : size_t) (o o' : out_range code_unit),
    copy_units false it res o <> OutOfSpace o'.
Proof.
  induction it as [|u it' IH]; intros res o o'; cbn [copy_units andb];
    destruct (0 <? res); try discriminate.
  destruct (put o u); [apply IH | discriminate].
Qed.

(** C7, as amended: when the handler is not ignorable and [c32rtomb] stored
    more units than the output has cells (and at least one cell is there),
    [encode_one] fills the cells with the first units, leaves them written,
    and hands the handler [insufficient_output_space] with the code point
    read, the input past it and the output at its end. *)
Theorem encode_one_partial_write c init eoutp eh es r :
  c32rtomb rt c (enc_narrow_state rt es) = r ->
  is_ignorable eh = false ->
  ahead eoutp <> [] ->
  c32_res r <> size_t_cast (-1) ->
  c32_res r = Z.of_nat (length (c32_bytes r)) ->
  (length (c32_bytes r) <= MB_LEN_MAX rt)%nat ->
  (length (ahead eoutp) < length (c32_bytes r))%nat ->
  encode_one rt (c :: init) eoutp eh es =
    Returns (invoke eh
               (Result init
                  (OutRange (behind eoutp ++ take (length (ahead eoutp)) (c32_bytes r)) [])
                  (EncodeState rt (c32_state r) (enc_output_pending rt es))
                  insufficient_output_space)
               (Span [c] 1)).
Proof.
  intros Hr Hign Hout Hres Hcount Hmax Hroom. unfold encode_one. rewrite Hr.
  rewrite Hign, (at_end_false _ Hout).
  apply Z.eqb_neq in Hres. rewrite Hres. cbn [negb andb].
  destruct eoutp as [written cells]. cbn [ahead behind] in *.
  rewrite copy_units_out_of_space.
  - rewrite store_at_front_take by (rewrite ?length_replicate; lia). reflexivity.
  - rewrite store_at_front_length by (rewrite length_replicate; lia).
    rewrite length_replicate. lia.
  - lia.
Qed.

(** *** The drain branch of [decode_one] *)

(** When nothing is pending, there is input and the output has a cell,
    [decode_one] is its consume loop. *)
Lemma decode_one_consume inp outp h s :
  output_pending rt s = false ->
  inp <> [] ->
  ahead outp <> [] ->
  decode_one rt inp outp h s =
    decode_loop rt (max_code_units rt) 0 1 (replicate (max_code_units rt) 0)
      inp outp h s.
Proof.
  intros Hpend Hinp Hout. unfold decode_one.
  destruct inp; [congruence|].
  rewrite (at_end_false _ Hout), andb_false_r, Hpend. reflexivity.
Qed.

(** C2, as amended: a call of [decode_one] on a state with [output_pending]
    set reads no input.  With an empty input it returns [ok] at once; with
    input, no output cell and a handler that is not ignorable it hands the
    handler [insufficient_output_space] and an empty span, state as given.
    Otherwise it probes with [mbrtoc32 (.., nullptr, 0, ..)] on the caller's
    narrow state: when the probe answers [(size_t)-1] and the handler is not
    ignorable, the handler gets [invalid_sequence], an empty span and the
    state the probe left; if not, one code point is written (the one the
    probe stored, when it stored one), [output_pending] is set to whether
    the probe answered [(size_t)-3], and [ok] is returned; when that clears
    the flag, the next call with input and an output cell is the consume
    loop.  With an ignorable handler the output is not checked before the
    write. *)
Theorem decode_one_drain inp outp h s r :
  mbrtoc32 rt None (narrow_state rt s) = r ->
  output_pending rt s = true ->
  (inp = [] -> decode_one rt inp outp h s = Returns (Result inp outp s ok))
  /\ (inp <> [] -> is_ignorable h = false -> ahead outp = [] ->
      decode_one rt inp outp h s =
        Returns (invoke h (Result inp outp s insufficient_output_space) empty_span))
  /\ (inp <> [] -> is_ignorable h = false -> ahead outp <> [] ->
      mb_res r = size_t_cast (-1) ->
      decode_one rt inp outp h s =
        Returns (invoke h
                   (Result inp outp (DecodeState rt (mb_state r) true)
                      invalid_sequence)
                   empty_span))
  /\ (forall cell rest,
        inp <> [] -> ahead outp = cell :: rest ->
        is_ignorable h = true \/ mb_res r <> size_t_cast (-1) ->
        exists c,
          decode_one rt inp outp h s =
            Returns (Result inp (OutRange (behind outp ++ [c]) rest)
                       (DecodeState rt (mb_state r) (mb_res r =? size_t_cast (-3)))
                       ok)
          /\ (forall c', mb_c32 r = Some c' -> c = c'))
  /\ (inp <> [] -> is_ignorable h = true -> ahead outp = [] ->
      decode_one rt inp outp h s = Undefined)
  /\ (forall inp2 outp2 h2,
        mb_res r <> size_t_cast (-3) -> inp2 <> [] -> ahead outp2 <> [] ->
        decode_one rt inp2 outp2 h2
          (DecodeState rt (mb_state r) (mb_res r =? size_t_cast (-3))) =
        decode_loop rt (max_code_units rt) 0 1
          (replicate (max_code_units rt) 0) inp2 outp2 h2
          (DecodeState rt (mb_state r) (mb_res r =? size_t_cast (-3)))).
Proof.
  intros Hr Hpend. repeat apply conj.
  - intros ->. reflexivity.
  - intros Hinp Hign Hout. unfold decode_one.
    destruct inp as [|u inp']; [congruence|].
    rewrite Hign, (at_end_true _ Hout). reflexivity.
  - intros Hinp Hign Hout Hres. unfold decode_one.
    destruct inp as [|u inp']; [congruence|].
    rewrite (at_end_false _ Hout), andb_false_r, Hpend.
    unfold decode_drain. rewrite Hr, Hign, Hres, Z.eqb_refl, Hpend. reflexivity.
  - intros cell rest Hinp Hout Hok. exists (default 0 (mb_c32 r)). split.
    + unfold decode_one. destruct inp as [|u inp']; [congruence|].
      rewrite at_end_false by (rewrite Hout; discriminate).
      rewrite andb_false_r, Hpend. unfold decode_drain. rewrite Hr.
      assert (negb (is_ignorable h) && (mb_res r =? size_t_cast (-1)) = false) as ->.
      { destruct Hok as [-> | Hne]; [reflexivity|].
        apply Z.eqb_neq in Hne. rewrite Hne. apply andb_false_r. }
      rewrite (put_cell _ _ _ _ Hout). reflexivity.
    + intros c' ->. reflexivity.
  - intros Hinp Hign Hout. unfold decode_one.
    destruct inp as [|u inp']; [congruence|].
    rewrite Hign, Hpend. cbn [negb andb]. unfold decode_drain, put.
    rewrite Hign, Hout. reflexivity.
  - intros inp2 outp2 h2 Hne Hinp2 Hout2.
    apply decode_one_consume; [|assumption..].
    cbn. apply Z.eqb_neq. exact Hne.
Qed.

(** *** Ignorable handlers *)

Lemma decode_loop_ignorable_ok h s :
  is_ignorable h = true ->
  forall (remaining state_offset state_count : nat)
         (intermediary_input init : list code_unit) outp r,
    decode_loop rt remaining state_offset state_count intermediary_input
      init outp h s = Returns r ->
    error_code r = ok.
Proof.
  intros Hign. induction remaining as [|remaining IH];
    intros state_offset state_count buf init outp r; cbn [decode_loop];
    rewrite Hign; cbn [negb andb]; [discriminate|].
  destruct init as [|u init']; [discriminate|].
  repeat match goal with
         | |- context [if ?b then _ else _] => destruct b
         | |- context [match put ?o ?v with _ => _ end] => destruct (put o v)
         end;
    try discriminate; try (intros [= <-]; reflexivity); apply IH.
Qed.

Lemma decode_loop_ignorable_same h1 h2 s :
  is_ignorable h1 = true -> is_ignorable h2 = true ->
  forall (remaining state_offset state_count : nat)
         (intermediary_input init : list code_unit) outp,
    decode_loop rt remaining state_offset state_count intermediary_input
      init outp h1 s =
    decode_loop rt remaining state_offset state_count intermediary_input
      init outp h2 s.
Proof.
  intros H1 H2. induction remaining as [|remaining IH];
    intros state_offset state_count buf init outp; cbn [decode_loop];
    rewrite H1, H2; cbn [negb andb]; [reflexivity|].
  destruct init as [|u init']; [reflexivity|].
  rewrite !IH. reflexivity.
Qed.

(** C9, as amended: with an ignorable handler neither operation classifies a
    failure: every result that is returned carries [ok], and the outcome
    does not depend on the handler, which is never called. *)
Theorem ignorable_handler_never_reports inp outp h s einp eoutp eh es :
  is_ignorable h = true ->
  is_ignorable eh = true ->
  (forall r, decode_one rt inp outp h s = Returns r -> error_code r = ok) /\
  (forall r, encode_one rt einp eoutp eh es = Returns r -> error_code r = ok) /\
  decode_one rt inp outp h s = decode_one rt inp outp assume_valid s /\
  encode_one rt einp eoutp eh es = encode_one rt einp eoutp assume_valid es.
Proof.
  intros Hd He. repeat split.
  - intros r. unfold decode_one. destruct inp as [|u inp'].
    + intros [= <-]. reflexivity.
    + rewrite Hd. cbn [negb andb]. destruct (output_pending rt s).
      * unfold decode_drain. rewrite Hd. cbn [negb andb].
        destruct (put outp _); [|discriminate]. intros [= <-]. reflexivity.
      * apply decode_loop_ignorable_ok. exact Hd.
  - intros r. unfold encode_one. destruct einp as [|c init].
    + intros [= <-]. reflexivity.
    + rewrite He. cbn [negb andb].
      destruct (copy_units _ _ _ _) eqn:E; try discriminate.
      * intros [= <-]. reflexivity.
      * exfalso. exact (copy_units_unchecked _ _ _ _ E).
  - unfold decode_one. destruct inp as [|u inp']; [reflexivity|].
    rewrite Hd. cbn [negb andb is_ignorable assume_valid].
    destruct (output_pending rt s).
    + unfold decode_drain. rewrite Hd. reflexivity.
    + apply decode_loop_ignorable_same; [exact Hd | reflexivity].
  - unfold encode_one. destruct einp as [|c init]; [reflexivity|].
    rewrite He. cbn [negb andb is_ignorable assume_valid].
    destruct (copy_units _ _ _ _) eqn:E; try reflexivity.
    exfalso. exact (copy_units_unchecked _ _ _ _ E).
Qed.

(** *** The consume loop of [decode_one] *)

Lemma size_t_cast_values :
  size_t_cast (-1) = 18446744073709551615 /\
  size_t_cast (-2) = 18446744073709551614 /\
  size_t_cast (-3) = 18446744073709551613.
Proof. repeat split; reflexivity. Qed.

Ltac size_t_values :=
  destruct size_t_cast_values as (Hm1 & Hm2 & Hm3);
  rewrite ?Hm1, ?Hm2, ?Hm3 in *.

Lemma take_next_unit (buf : list code_unit) (i : nat) (u : code_unit) :
  (i < length buf)%nat -> take (S i) (<[i := u]> buf) = take i buf ++ [u].
Proof.
  intros Hi.
  rewrite (take_S_r _ _ u) by (apply list_lookup_insert_eq; exact Hi).
  rewrite take_insert_ge by lia. reflexivity.
Qed.

(** The three ways the loop returns, started at offset [i] on the array
    [buf] with [init] left to read: it hands the handler a report that
    carries the caller's state and output as they were; or [mbrtoc32],
    applied to the units taken so far and to the caller's narrow state,
    answered 0 and nothing was written or committed; or it answered a count
    (or [(size_t)-3]), its code point was written and its state committed. *)
Lemma decode_loop_cases h s outp :
  forall (remaining i : nat) (buf init : list code_unit) (r : decode_result rt),
    length buf = (i + remaining)%nat ->
    decode_loop rt remaining i (S i) buf init outp h s = Returns r ->
    (exists r0 sp,
        is_ignorable h = false /\ r = invoke h r0 sp /\
        state r0 = s /\ output r0 = outp /\
        (error_code r0 = incomplete_sequence \/ error_code r0 = invalid_sequence))
    \/ (exists k,
          (0 < k <= remaining)%nat /\
          mb_res (mbrtoc32 rt (Some (take i buf ++ take k init)) (narrow_state rt s)) = 0 /\
          r = Result (drop k init) outp s ok)
    \/ (exists k o,
          (0 < k <= remaining)%nat /\
          let m := mbrtoc32 rt (Some (take i buf ++ take k init)) (narrow_state rt s) in
          mb_res m <> size_t_cast (-1) /\ mb_res m <> size_t_cast (-2) /\
          mb_res m <> 0 /\
          put outp (default 0 (mb_c32 m)) = Some o /\
          r = Result (drop k init) o
                (DecodeState rt (mb_state m)
                   ((mb_res m =? size_t_cast (-3)) || output_pending rt s))
                ok).
Proof.
  induction remaining as [|remaining IH]; intros i buf init r Hlen;
    cbn [decode_loop].
  - destruct (is_ignorable h) eqn:Hign; cbn [negb]; [discriminate|].
    intros [= <-]. left. eexists _, _. repeat split. left. reflexivity.
  - destruct init as [|u init']; [discriminate|].
    assert (take (S i) (<[i:=u]> buf) = take i buf ++ [u]) as ->
      by (apply take_next_unit; lia).
    assert (Hnext : forall r',
      decode_loop rt remaining (S i) (S (S i)) (<[i:=u]> buf) init' outp h s
        = Returns r' ->
      (exists r0 sp,
          is_ignorable h = false /\ r' = invoke h r0 sp /\
          state r0 = s /\ output r0 = outp /\
          (error_code r0 = incomplete_sequence \/ error_code r0 = invalid_sequence))
      \/ (exists k,
            (0 < k <= S remaining)%nat /\
            mb_res (mbrtoc32 rt (Some (take i buf ++ take k (u :: init')))
                      (narrow_state rt s)) = 0 /\
            r' = Result (drop k (u :: init')) outp s ok)
      \/ (exists k o,
            (0 < k <= S remaining)%nat /\
            let m := mbrtoc32 rt (Some (take i buf ++ take k (u :: init')))
                       (narrow_state rt s) in
            mb_res m <> size_t_cast (-1) /\ mb_res m <> size_t_cast (-2) /\
            mb_res m <> 0 /\
            put outp (default 0 (mb_c32 m)) = Some o /\
            r' = Result (drop k (u :: init')) o
                   (DecodeState rt (mb_state m)
                      ((mb_res m =? size_t_cast (-3)) || output_pending rt s))
                   ok)).
    { intros r' Hr'. apply IH in Hr'; [|rewrite length_insert; lia].
      rewrite take_next_unit in Hr' by lia.
      destruct Hr' as [Hrep | [(k & Hk & Hres & ->) | (k & o & Hk & Hm)]].
      - left. exact Hrep.
      - right. left. exists (S k). split; [lia|].
        cbn [take drop]. rewrite <- app_assoc in Hres. split; [exact Hres | reflexivity].
      - right. right. exists (S k), o. split; [lia|].
        cbn [take drop]. rewrite <- app_assoc in Hm. exact Hm. }
    set (m := mbrtoc32 rt (Some (take i buf ++ [u])) (narrow_state rt s)).
    assert (Hm : mbrtoc32 rt (Some (take i buf ++ take 1 (u :: init')))
                   (narrow_state rt s) = m) by reflexivity.
    destruct (mb_res m =? size_t_cast (-2)) eqn:E2.
    { destruct (negb (is_ignorable h) && exhausted init') eqn:Hc; [|apply Hnext].
      intros [= <-]. left. eexists _, _. repeat split.
      - destruct (is_ignorable h); [discriminate | reflexivity].
      - left. reflexivity. }
    apply Z.eqb_neq in E2.
    destruct (mb_res m =? size_t_cast (-3)) eqn:E3.
    { destruct (put outp (default 0 (mb_c32 m))) as [o|] eqn:Hput; [|discriminate].
      intros [= <-]. right. right. exists 1%nat, o. split; [lia|].
      rewrite Hm. cbv zeta. rewrite E3. apply Z.eqb_eq in E3.
      repeat split; try exact Hput; size_t_values; lia. }
    destruct (mb_res m =? size_t_cast (-1)) eqn:E1.
    { destruct (is_ignorable h) eqn:Hign; cbn [negb]; [apply Hnext|].
      intros [= <-]. left. eexists _, _. repeat split. right. reflexivity. }
    apply Z.eqb_neq in E1.
    destruct (mb_res m =? 0) eqn:E0.
    { intros [= <-]. right. left. exists 1%nat. split; [lia|].
      rewrite Hm. apply Z.eqb_eq in E0. split; [exact E0 | reflexivity]. }
    apply Z.eqb_neq in E0.
    destruct (put outp (default 0 (mb_c32 m))) as [o|] eqn:Hput; [|discriminate].
    intros [= <-]. right. right. exists 1%nat, o. split; [lia|].
    rewrite Hm. cbv zeta. rewrite E3. repeat split; assumption.
Qed.

(** C3: in the consume loop every call of [mbrtoc32] is made on the units
    taken so far and on the narrow state the caller entered with; the
    caller's state is replaced only together with the write of a code point;
    a report of [incomplete_sequence] or [invalid_sequence] carries the
    caller's state and output as they were on entry.  With the handler that
    returns the report as it is, a call that returns one of the two codes
    returns the state it was given. *)
Theorem consume_loop_commits_only_on_success inp outp h s :
  output_pending rt s = false ->
  inp <> [] ->
  ahead outp <> [] ->
  (forall r, decode_one rt inp outp h s = Returns r ->
    (exists r0 sp,
        is_ignorable h = false /\ r = invoke h r0 sp /\
        state r0 = s /\ output r0 = outp /\
        (error_code r0 = incomplete_sequence \/ error_code r0 = invalid_sequence))
    \/ (error_code r = ok /\ state r = s /\ output r = outp)
    \/ (exists k o,
          (0 < k <= max_code_units rt)%nat /\
          let m := mbrtoc32 rt (Some (take k inp)) (narrow_state rt s) in
          mb_res m <> size_t_cast (-1) /\ mb_res m <> size_t_cast (-2) /\
          mb_res m <> 0 /\
          put outp (default 0 (mb_c32 m)) = Some o /\
          r = Result (drop k inp) o
                (DecodeState rt (mb_state m) (mb_res m =? size_t_cast (-3))) ok))
  /\ (forall r, decode_one rt inp outp pass_through s = Returns r ->
       error_code r = incomplete_sequence \/ error_code r = invalid_sequence ->
       state r = s /\ output r = outp).
Proof.
  intros Hpend Hinp Hout. split.
  - intros r. rewrite decode_one_consume by assumption. intros Hr.
    apply decode_loop_cases in Hr; [|rewrite length_replicate; lia].
    rewrite take_0 in Hr. cbn [app] in Hr.
    destruct Hr as [Hrep | [(k & _ & _ & ->) | (k & o & Hk & Hm)]].
    + left. exact Hrep.
    + right. left. repeat split.
    + right. right. exists k, o. split; [exact Hk|].
      rewrite Hpend, orb_false_r in Hm. exact Hm.
  - intros r. rewrite decode_one_consume by assumption. intros Hr Herr.
    apply decode_loop_cases in Hr; [|rewrite length_replicate; lia].
    destruct Hr as [(r0 & sp & _ & -> & Hs & Ho & _)
                   | [(k & _ & _ & ->) | (k & o & _ & _ & _ & _ & _ & ->)]].
    + cbn [invoke pass_through]. split; assumption.
    + split; reflexivity.
    + cbn [error_code] in Herr. destruct Herr; discriminate.
Qed.

(** *** Decoding a null character *)

(** When [mbrtoc32] answers 0 for the first unit, [decode_one] takes the
    unit and returns [ok] with the output and the state as they were: the
    null code point is not written. *)
Lemma decode_one_null u inp outp h s :
  output_pending rt s = false ->
  ahead outp <> [] ->
  (0 < MB_LEN_MAX rt)%nat ->
  mb_res (mbrtoc32 rt (Some [u]) (narrow_state rt s)) = 0 ->
  decode_one rt (u :: inp) outp h s = Returns (Result inp outp s ok).
Proof.
  intros Hpend Hout Hmax Hres.
  rewrite decode_one_consume by (assumption || discriminate).
  unfold max_code_units. destruct (MB_LEN_MAX rt) as [|n]; [lia|].
  cbn [decode_loop replicate]. change (take 1 (<[0%nat:=u]> (0 :: replicate n 0)))
    with [u].
  rewrite Hres. reflexivity.
Qed.

(** *** Encoding, then decoding *)

(** The consume loop on a sequence whose proper prefixes are incomplete and
    which as a whole yields a code point. *)
Lemma decode_loop_consumes h s outp cell rest :
  ahead outp = cell :: rest ->
  forall (todo : list code_unit) (remaining i : nat) (buf tail : list code_unit)
         (m : mbrtoc32_result (mbstate_t rt)),
    length buf = (i + remaining)%nat ->
    todo <> [] ->
    (length todo <= remaining)%nat ->
    (forall j, (0 < j < length todo)%nat ->
       mb_res (mbrtoc32 rt (Some (take i buf ++ take j todo)) (narrow_state rt s))
         = size_t_cast (-2)) ->
    mbrtoc32 rt (Some (take i buf ++ todo)) (narrow_state rt s) = m ->
    mb_res m <> size_t_cast (-1) -> mb_res m <> size_t_cast (-2) ->
    mb_res m <> size_t_cast (-3) -> mb_res m <> 0 ->
    decode_loop rt remaining i (S i) buf (todo ++ tail) outp h s =
      Returns (Result tail (OutRange (behind outp ++ [default 0 (mb_c32 m)]) rest)
                 (DecodeState rt (mb_state m) (output_pending rt s)) ok).
Proof.
  intros Hout. induction todo as [|u todo IH];
    intros remaining i buf tail m Hlen Hne Hfit Hpre Hm H1 H2 H3 H0;
    [congruence|].
  destruct remaining as [|remaining]; [cbn in Hfit; lia|].
  cbn [decode_loop app].
  rewrite take_next_unit by lia.
  destruct todo as [|v todo].
  - rewrite Hm.
    apply Z.eqb_neq in H1, H2, H3, H0. rewrite H1, H2, H3, H0.
    rewrite (put_cell _ _ _ _ Hout). reflexivity.
  - pose proof (Hpre 1%nat) as Hfirst. cbn [take length] in Hfirst.
    rewrite Hfirst by lia. rewrite Z.eqb_refl.
    cbn [app exhausted]. rewrite andb_false_r.
    apply IH; try assumption.
    + rewrite length_insert. lia.
    + discriminate.
    + cbn [length] in *. lia.
    + intros j Hj. rewrite take_next_unit by lia. rewrite <- app_assoc.
      apply (Hpre (S j)). cbn [length] in *. lia.
    + rewrite take_next_unit by lia. rewrite <- app_assoc. exact Hm.
Qed.

(** A code point that [c32rtomb] turns into at least one unit, and whose
    units [mbrtoc32] turns back into it with a count that is not 0, makes the
    round trip: [encode_one] writes the units, and [decode_one] on them
    writes the code point back. *)
Lemma encode_then_decode c eoutp eh es outp h s cell rest e m :
  c32rtomb rt c (enc_narrow_state rt es) = e ->
  mbrtoc32 rt (Some (c32_bytes e)) (narrow_state rt s) = m ->
  c32_res e = Z.of_nat (length (c32_bytes e)) ->
  c32_res e <> size_t_cast (-1) ->
  (0 < length (c32_bytes e) <= MB_LEN_MAX rt)%nat ->
  (length (c32_bytes e) <= length (ahead eoutp))%nat ->
  output_pending rt s = false ->
  ahead outp = cell :: rest ->
  (forall j, (0 < j < length (c32_bytes e))%nat ->
     mb_res (mbrtoc32 rt (Some (take j (c32_bytes e))) (narrow_state rt s))
       = size_t_cast (-2)) ->
  mb_c32 m = Some c ->
  mb_res m <> size_t_cast (-1) -> mb_res m <> size_t_cast (-2) ->
  mb_res m <> size_t_cast (-3) -> mb_res m <> 0 ->
  encode_one rt [c] eoutp eh es =
    Returns (Result []
               (OutRange (behind eoutp ++ c32_bytes e)
                  (drop (length (c32_bytes e)) (ahead eoutp)))
               (EncodeState rt (c32_state e) (enc_output_pending rt es)) ok)
  /\ decode_one rt (c32_bytes e) outp h s =
      Returns (Result [] (OutRange (behind outp ++ [c]) rest)
                 (DecodeState rt (mb_state m) false) ok).
Proof.
  intros He Hm Hcount Hrep Hlen Hroom Hpend Hout Hpre Hc H1 H2 H3 H0. split.
  - unfold encode_one. rewrite He.
    rewrite at_end_false by (destruct (ahead eoutp); [cbn in Hroom; lia | discriminate]).
    apply Z.eqb_neq in Hrep. rewrite Hrep, !andb_false_r.
    destruct eoutp as [written cells]. cbn [ahead behind] in *.
    rewrite Hcount, copy_units_all.
    + rewrite store_at_front_take by (rewrite ?length_replicate; lia).
      rewrite take_ge by lia. reflexivity.
    + rewrite store_at_front_length; rewrite length_replicate; lia.
    + exact Hroom.
  - rewrite decode_one_consume;
      [|assumption| destruct (c32_bytes e); [cbn in Hlen; lia | discriminate]
       |rewrite Hout; discriminate].
    rewrite <- (app_nil_r (c32_bytes e)) at 1.
    rewrite (decode_loop_consumes h s outp cell rest Hout _ _ _ _ _ m);
      try assumption.
    + rewrite Hc, Hpend. reflexivity.
    + rewrite length_replicate. reflexivity.
    + destruct (c32_bytes e); [cbn in Hlen; lia | discriminate].
    + unfold max_code_units. lia.
Qed.

End Properties.

(** ** The code on concrete inputs *)

(** The round trip of U+00E9 in the UTF-8 locale, through [encode_then_decode]. *)
Lemma encode_then_decode_e_acute :
  encode_one Utf8Locale.runtime [233] (fresh_output 4 0) pass_through
    (new_encode_state Utf8Locale.runtime) =
    Returns (Result [] (OutRange [195; 169] [0; 0])
               (new_encode_state Utf8Locale.runtime) ok)
  /\ decode_one Utf8Locale.runtime [195; 169] (fresh_output 1 7) pass_through
       (new_decode_state Utf8Locale.runtime) =
     Returns (Result [] (OutRange [233] [])
                (new_decode_state Utf8Locale.runtime) ok).
Proof.
  apply (encode_then_decode Utf8Locale.runtime 233 (fresh_output 4 0) pass_through
           (new_encode_state Utf8Locale.runtime) (fresh_output 1 7) pass_through
           (new_decode_state Utf8Locale.runtime) 7 []
           (Utf8Locale.c32rtomb 233 []) (Utf8Locale.mbrtoc32 (Some [195; 169]) []));
    try reflexivity;
    try (intros j Hj; assert (j = 1%nat) as -> by (cbn in Hj; lia); reflexivity);
    vm_compute; (discriminate || lia).
Defined.

(** The round trip of U+1F600, four units long: the loop asks for more three
    times before it decodes. *)
Lemma encode_then_decode_four_units :
  encode_one Utf8Locale.runtime [128512] (fresh_output 4 0) pass_through
    (new_encode_state Utf8Locale.runtime) =
    Returns (Result [] (OutRange [240; 159; 152; 128] [])
               (new_encode_state Utf8Locale.runtime) ok)
  /\ decode_one Utf8Locale.runtime [240; 159; 152; 128] (fresh_output 1 7)
       pass_through (new_decode_state Utf8Locale.runtime) =
     Returns (Result [] (OutRange [128512] [])
                (new_decode_state Utf8Locale.runtime) ok).
Proof.
  apply (encode_then_decode Utf8Locale.runtime 128512 (fresh_output 4 0)
           pass_through (new_encode_state Utf8Locale.runtime) (fresh_output 1 7)
           pass_through (new_decode_state Utf8Locale.runtime) 7 []
           (Utf8Locale.c32rtomb 128512 [])
           (Utf8Locale.mbrtoc32 (Some [240; 159; 152; 128]) []));
    try reflexivity;
    try (intros j Hj; cbn in Hj;
         destruct j as [|[|[|[|j]]]]; try lia; reflexivity);
    vm_compute; (discriminate || lia).
Defined.

(** C1: U+0000 does not make the round trip.  In the UTF-8 locale
    [encode_one] writes the unit 0 for it; [decode_one], given that unit and
    one output cell, takes the unit and returns [ok] with the cell still
    ahead and nothing written. *)
Theorem roundtrip_loses_null :
  encode_one Utf8Locale.runtime [0] (fresh_output 1 7) pass_through
    (new_encode_state Utf8Locale.runtime) =
    Returns (Result [] (OutRange [0] [])
               (new_encode_state Utf8Locale.runtime) ok)
  /\ decode_one Utf8Locale.runtime [0] (fresh_output 1 7) pass_through
       (new_decode_state Utf8Locale.runtime) =
     Returns (Result [] (OutRange [] [7])
                (new_decode_state Utf8Locale.runtime) ok).
Proof. split; reflexivity. Qed.

(** C8: in the US-ASCII locale, [decode_one] on the units 0, 65 with four
    output cells takes the first unit, for which [mbrtoc32] answers 0, and
    returns [ok] with all four cells still ahead: no code point is written
    and the output is not advanced. *)
Theorem decode_one_null_writes_nothing :
  mb_res (AsciiLocale.mbrtoc32 (Some [0]) tt) = 0
  /\ mb_c32 (AsciiLocale.mbrtoc32 (Some [0]) tt) = Some 0
  /\ decode_one AsciiLocale.runtime [0; 65] (fresh_output 4 7) pass_through
       (new_decode_state AsciiLocale.runtime) =
     Returns (Result [65] (OutRange [] [7; 7; 7; 7])
                (new_decode_state AsciiLocale.runtime) ok).
Proof. repeat split; reflexivity. Qed.

(** The same through [decode_one_null], next to the unit 65, which is written. *)
Lemma decode_one_null_next_to_letter :
  decode_one AsciiLocale.runtime [0; 65] (fresh_output 4 7) pass_through
    (new_decode_state AsciiLocale.runtime) =
    Returns (Result [65] (fresh_output 4 7) (new_decode_state AsciiLocale.runtime) ok)
  /\ decode_one AsciiLocale.runtime [65; 0] (fresh_output 4 7) pass_through
       (new_decode_state AsciiLocale.runtime) =
     Returns (Result [0] (OutRange [65] [7; 7; 7])
                (new_decode_state AsciiLocale.runtime) ok).
Proof.
  split.
  - apply decode_one_null; [reflexivity | discriminate | cbn; lia | reflexivity].
  - reflexivity.
Defined.

(** C2, counterexample: with output pending, [decode_one] does not drain
    when the input is empty (it returns [ok], writes nothing and leaves the
    flag set), nor when the output has no cell, nor when the probe answers
    [(size_t)-1] (the handler gets [insufficient_output_space], respectively
    [invalid_sequence]). *)
Lemma drain_is_guarded :
  decode_one Utf8Locale.runtime [] (fresh_output 1 7) pass_through
    (DecodeState Utf8Locale.runtime [] true) =
    Returns (Result [] (OutRange [] [7]) (DecodeState Utf8Locale.runtime [] true) ok)
  /\ decode_one Utf8Locale.runtime [65] (OutRange [] []) pass_through
       (DecodeState Utf8Locale.runtime [] true) =
     Returns (Result [65] (OutRange [] []) (DecodeState Utf8Locale.runtime [] true)
                insufficient_output_space)
  /\ decode_one Utf8Locale.runtime [65] (fresh_output 1 7) pass_through
       (DecodeState Utf8Locale.runtime [195] true) =
     Returns (Result [65] (OutRange [] [7])
                (DecodeState Utf8Locale.runtime [195] true) invalid_sequence).
Proof. repeat split; reflexivity. Qed.

(** The drain in the pair locale, on the state the call that wrote U+0BCD
    left (see [owed_code_point_then_drain_witness]): nothing is read, one
    code point is written and the flag is cleared. *)
Lemma decode_one_drain_witness :
  exists c,
    decode_one PairLocale.runtime [66] (OutRange [2972; 3021] [7; 7]) pass_through
      (DecodeState PairLocale.runtime None true) =
      Returns (Result [66] (OutRange ([2972; 3021] ++ [c]) [7])
                 (DecodeState PairLocale.runtime None false) ok)
    /\ (forall c', mb_c32 (PairLocale.mbrtoc32 None None) = Some c' -> c = c').
Proof.
  apply (proj1 (proj2 (proj2 (proj2
           (decode_one_drain PairLocale.runtime [66] (OutRange [2972; 3021] [7; 7])
              pass_through (DecodeState PairLocale.runtime None true)
              (PairLocale.mbrtoc32 None None) eq_refl eq_refl)))) 7 [7]).
  - discriminate.
  - reflexivity.
  - right. vm_compute. discriminate.
Defined.

(** A lead byte with nothing after it: [incomplete_sequence], state and
    output as given. *)
Lemma consume_loop_commits_only_on_success_witness :
  exists r,
    decode_one Utf8Locale.runtime [195] (fresh_output 1 7) pass_through
      (new_decode_state Utf8Locale.runtime) = Returns r
    /\ error_code r = incomplete_sequence
    /\ state r = new_decode_state Utf8Locale.runtime
    /\ output r = fresh_output 1 7.
Proof.
  eexists. split; [reflexivity|]. split; [reflexivity|].
  apply (consume_loop_commits_only_on_success Utf8Locale.runtime [195]
           (fresh_output 1 7) pass_through (new_decode_state Utf8Locale.runtime)).
  - reflexivity.
  - discriminate.
  - discriminate.
  - reflexivity.
  - left. reflexivity.
Defined.

(** No output cell, output pending: the report comes before the drain. *)
Lemma decode_one_no_output_space_witness :
  decode_one Utf8Locale.runtime [65] (OutRange [] []) pass_through
    (DecodeState Utf8Locale.runtime [] true) =
    Returns (Result [65] (OutRange [] []) (DecodeState Utf8Locale.runtime [] true)
               insufficient_output_space).
Proof.
  apply (decode_one_no_output_space Utf8Locale.runtime [65] (OutRange [] [])
           pass_through (DecodeState Utf8Locale.runtime [] true)).
  - discriminate.
  - reflexivity.
  - reflexivity.
Defined.

(** C5, counterexample: with no output cell, [encode_one] returns [ok] on an
    empty input, and with an ignorable handler it does not check the output:
    it converts the code point and writes past the end of the range. *)
Lemma encode_one_zero_output_not_always_an_error :
  encode_one AsciiLocale.runtime [] (OutRange [] []) pass_through
    (new_encode_state AsciiLocale.runtime) =
    Returns (Result [] (OutRange [] []) (new_encode_state AsciiLocale.runtime) ok)
  /\ encode_one AsciiLocale.runtime [65] (OutRange [] []) assume_valid
       (new_encode_state AsciiLocale.runtime) = Undefined.
Proof. split; reflexivity. Qed.

(** One code point to read, no output cell. *)
Lemma encode_one_no_output_space_witness :
  encode_one AsciiLocale.runtime [65] (OutRange [] []) pass_through
    (new_encode_state AsciiLocale.runtime) =
    Returns (Result [65] (OutRange [] []) (new_encode_state AsciiLocale.runtime)
               insufficient_output_space).
Proof.
  apply (encode_one_no_output_space AsciiLocale.runtime 65 [] (OutRange [] [])
           pass_through (new_encode_state AsciiLocale.runtime)).
  - reflexivity.
  - reflexivity.
Defined.

(** C6, counterexample: U+00E9 has no unit in the US-ASCII locale, yet
    [encode_one] reports no [invalid_sequence] for it when the handler is
    ignorable (it runs the copy loop [(size_t)-1] times, past the end of its
    array), and with no output cell it reports [insufficient_output_space]
    with the input not advanced. *)
Lemma encode_one_unrepresentable_is_guarded :
  c32_res (AsciiLocale.c32rtomb 233 tt) = size_t_cast (-1)
  /\ encode_one AsciiLocale.runtime [233] (fresh_output 4 0) assume_valid
       (new_encode_state AsciiLocale.runtime) = Undefined
  /\ encode_one AsciiLocale.runtime [233] (OutRange [] []) pass_through
       (new_encode_state AsciiLocale.runtime) =
     Returns (Result [233] (OutRange [] []) (new_encode_state AsciiLocale.runtime)
                insufficient_output_space).
Proof. repeat split; reflexivity. Qed.

(** U+00E9 in the US-ASCII locale, with four output cells. *)
Lemma encode_one_unrepresentable_witness :
  encode_one AsciiLocale.runtime [233; 65] (fresh_output 4 0) pass_through
    (new_encode_state AsciiLocale.runtime) =
    Returns (Result [65] (OutRange [] [0; 0; 0; 0])
               (new_encode_state AsciiLocale.runtime) invalid_sequence).
Proof.
  apply (encode_one_unrepresentable AsciiLocale.runtime 233 [65] (fresh_output 4 0)
           pass_through (new_encode_state AsciiLocale.runtime)).
  - reflexivity.
  - discriminate.
  - reflexivity.
Defined.

(** C7, counterexample: in the UTF-8 locale U+00E9 takes two units; with one
    output cell and an ignorable handler [encode_one] reports no
    [insufficient_output_space]: it writes the second unit past the end of
    the range. *)
Lemma encode_one_partial_write_unchecked :
  encode_one Utf8Locale.runtime [233] (fresh_output 1 0) assume_valid
    (new_encode_state Utf8Locale.runtime) = Undefined.
Proof. reflexivity. Qed.

(** U+00E9 in the UTF-8 locale, with one output cell: the first unit stays
    written. *)
Lemma encode_one_partial_write_witness :
  encode_one Utf8Locale.runtime [233; 65] (fresh_output 1 0) pass_through
    (new_encode_state Utf8Locale.runtime) =
    Returns (Result [65] (OutRange [195] []) (new_encode_state Utf8Locale.runtime)
               insufficient_output_space).
Proof.
  apply (encode_one_partial_write Utf8Locale.runtime 233 [65] (fresh_output 1 0)
           pass_through (new_encode_state Utf8Locale.runtime)
           (Utf8Locale.c32rtomb 233 []) eq_refl).
  - reflexivity.
  - discriminate.
  - vm_compute. discriminate.
  - reflexivity.
  - vm_compute. lia.
  - vm_compute. lia.
Defined.

(** C9, counterexample: with an ignorable handler, an unrepresentable code
    point in [encode_one], and a sequence cut short or invalid in
    [decode_one], yield no result carrying [invalid_sequence] or
    [incomplete_sequence]: the behaviour is undefined. *)
Lemma ignorable_handler_gets_no_error_code :
  encode_one AsciiLocale.runtime [233; 65] (fresh_output 8 0) assume_valid
    (new_encode_state AsciiLocale.runtime) = Undefined
  /\ decode_one Utf8Locale.runtime [195] (fresh_output 1 7) assume_valid
       (new_decode_state Utf8Locale.runtime) = Undefined
  /\ decode_one Utf8Locale.runtime [255; 65] (fresh_output 1 7) assume_valid
       (new_decode_state Utf8Locale.runtime) = Undefined.
Proof. repeat split; reflexivity. Qed.

(** An ignorable handler that would turn every report into
    [invalid_sequence] behaves as [assume_valid]: it is not called. *)
Lemma ignorable_handler_never_reports_witness :
  (forall r,
     decode_one Utf8Locale.runtime [195; 169] (fresh_output 1 7)
       (ErrorHandler true
          (fun r0 _ => Result (input r0) (output r0) (state r0) invalid_sequence))
       (new_decode_state Utf8Locale.runtime) = Returns r -> error_code r = ok)
  /\ (forall r,
       encode_one Utf8Locale.runtime [233] (fresh_output 2 0)
         (ErrorHandler true
            (fun r0 _ => Result (input r0) (output r0) (state r0) invalid_sequence))
         (new_encode_state Utf8Locale.runtime) = Returns r -> error_code r = ok)
  /\ decode_one Utf8Locale.runtime [195; 169] (fresh_output 1 7)
       (ErrorHandler true
          (fun r0 _ => Result (input r0) (output r0) (state r0) invalid_sequence))
       (new_decode_state Utf8Locale.runtime) =
     decode_one Utf8Locale.runtime [195; 169] (fresh_output 1 7) assume_valid
       (new_decode_state Utf8Locale.runtime)
  /\ encode_one Utf8Locale.runtime [233] (fresh_output 2 0)
       (ErrorHandler true
          (fun r0 _ => Result (input r0) (output r0) (state r0) invalid_sequence))
       (new_encode_state Utf8Locale.runtime) =
     encode_one Utf8Locale.runtime [233] (fresh_output 2 0) assume_valid
       (new_encode_state Utf8Locale.runtime).
Proof.
  apply (ignorable_handler_never_reports Utf8Locale.runtime [195; 169]
           (fresh_output 1 7) _ (new_decode_state Utf8Locale.runtime)
           [233] (fresh_output 2 0) _ (new_encode_state Utf8Locale.runtime)).
  - reflexivity.
  - reflexivity.
Defined.

(** ** Further properties of [encode_one] *)

Section EncodeOne.

Variable rt : c_runtime.

Implicit Types (es : encode_state rt) (eh : encode_handler rt).
Implicit Types (eoutp : out_range code_unit).

Lemma store_at_front_keeps_length {A : Type} (stored arr : list A) :
  length (store_at_front stored arr) = length arr.
Proof.
  unfold store_at_front. rewrite length_take, length_app, length_drop. lia.
Qed.

(** However the copy loop ends, what it leaves is the output it was given,
    advanced over the first [n] units of the array. *)
Lemma copy_units_positions (call_error_handler : bool) (it : list code_unit) :
  forall (res : size_t) (o o' : out_range code_unit),
    copy_units call_error_handler it res o = Copied o' \/
    copy_units call_error_handler it res o = OutOfSpace o' ->
    exists n : nat,
      (n <= length it)%nat /\ (n <= length (ahead o))%nat /\
      o' = OutRange (behind o ++ take n it) (drop n (ahead o)).
Proof.
  assert (Hstop : forall (o o' : out_range code_unit) (it0 : list code_unit),
             o = o' ->
             exists n : nat,
               (n <= length it0)%nat /\ (n <= length (ahead o))%nat /\
               o' = OutRange (behind o ++ take n it0) (drop n (ahead o))).
  { intros o o' it0 <-. exists 0%nat. destruct o as [b a].
    cbn [behind ahead take drop]. rewrite take_0, app_nil_r.
    repeat split; lia. }
  induction it as [|u it' IH]; intros res o o'; cbn [copy_units].
  - destruct (0 <? res); [destruct (call_error_handler && at_end o)|];
      intros [H | H]; try discriminate; injection H as H; apply Hstop; exact H.
  - destruct (0 <? res).
    + destruct (call_error_handler && at_end o).
      * intros [H | H]; try discriminate. injection H as H. apply Hstop. exact H.
      * unfold put. destruct o as [b a]. cbn [ahead behind].
        destruct a as [|cell rest]; [intros [H | H]; discriminate|].
        intros H. apply IH in H. destruct H as (n & Hn & Hroom & ->).
        cbn [ahead behind] in *. exists (S n). cbn [length take drop].
        rewrite <- app_assoc. repeat split; lia.
    + intros [H | H]; try discriminate. injection H as H. apply Hstop. exact H.
Qed.

(** With the space check on, the loop stays inside the array and the output
    as long as the count is no more than the array holds. *)
Lemma copy_units_checked_is_defined (it : list code_unit) :
  forall (res : size_t) (o : out_range code_unit),
    res <= Z.of_nat (length it) ->
    copy_units true it res o <> CopyUndefined.
Proof.
  induction it as [|u it' IH]; intros res o Hres; cbn [copy_units length] in *.
  - destruct (0 <? res) eqn:E; [apply Z.ltb_lt in E; lia | discriminate].
  - destruct (0 <? res); [|discriminate].
    cbn [andb]. unfold at_end, put. destruct (ahead o); [discriminate|].
    apply IH. lia.
Qed.

(** With the space check off, a count larger than the array or than the
    output takes the loop outside one of them. *)
Lemma copy_units_unchecked_overrun (it : list code_unit) :
  forall (res : size_t) (o : out_range code_unit),
    Z.of_nat (length it) < res \/ Z.of_nat (length (ahead o)) < res ->
    copy_units false it res o = CopyUndefined.
Proof.
  induction it as [|u it' IH]; intros res o Hres; cbn [copy_units andb].
  - destruct (0 <? res) eqn:E; [reflexivity|].
    apply Z.ltb_ge in E. cbn [length] in Hres. lia.
  - destruct (0 <? res) eqn:E; [|apply Z.ltb_ge in E; lia].
    unfold put. destruct o as [b a]. cbn [ahead behind] in *.
    destruct a as [|cell rest]; [reflexivity|].
    apply IH. cbn [ahead length] in *. lia.
Qed.

(** [encode_one] on success: when [c32rtomb] stored [n] units, no more than
    its array and the output can take, [encode_one] takes the one code point,
    writes exactly those units at the output position, leaves the units
    behind it and the rest of the input alone, and returns [ok] with the
    narrow state [c32rtomb] left. *)
Theorem encode_one_success c init eoutp eh es r :
  c32rtomb rt c (enc_narrow_state rt es) = r ->
  c32_res r = Z.of_nat (length (c32_bytes r)) ->
  c32_res r <> size_t_cast (-1) ->
  (length (c32_bytes r) <= MB_LEN_MAX rt)%nat ->
  (length (c32_bytes r) <= length (ahead eoutp))%nat ->
  is_ignorable eh = true \/ ahead eoutp <> [] ->
  encode_one rt (c :: init) eoutp eh es =
    Returns (Result init
               (OutRange (behind eoutp ++ c32_bytes r)
                  (drop (length (c32_bytes r)) (ahead eoutp)))
               (EncodeState rt (c32_state r) (enc_output_pending rt es)) ok).
Proof.
  intros Hr Hcount Hrep Hmax Hroom Hcheck. unfold encode_one. rewrite Hr.
  assert (negb (is_ignorable eh) && at_end eoutp = false) as ->.
  { destruct Hcheck as [-> | Hne]; [reflexivity|].
    rewrite (at_end_false _ Hne). apply andb_false_r. }
  apply Z.eqb_neq in Hrep. rewrite Hrep, andb_false_r.
  destruct eoutp as [written cells]. cbn [ahead behind] in *.
  rewrite Hcount, copy_units_all.
  - rewrite store_at_front_take by (rewrite ?length_replicate; lia).
    rewrite take_ge by lia. reflexivity.
  - rewrite store_at_front_keeps_length, length_replicate. exact Hmax.
  - exact Hroom.
Qed.

(** What [encode_one] never does: whenever it returns, the result it built
    (returned as it is, or handed to the handler) has the input advanced by
    no code point or by one, and the output advanced over at most
    [max_code_units] cells, with the cells behind the given position as they
    were and the cells ahead being the rest of the given ones. *)
Theorem encode_one_positions inp eoutp eh es res :
  encode_one rt inp eoutp eh es = Returns res ->
  exists (r0 : encode_result rt) (written : list code_unit),
    (res = r0 \/ exists sp, is_ignorable eh = false /\ res = invoke eh r0 sp) /\
    (input r0 = inp \/ exists c, inp = c :: input r0) /\
    (length written <= max_code_units rt)%nat /\
    (length written <= length (ahead eoutp))%nat /\
    output r0 = OutRange (behind eoutp ++ written) (drop (length written) (ahead eoutp)).
Proof.
  assert (Hsame : eoutp = OutRange (behind eoutp ++ []) (drop (length (@nil code_unit)) (ahead eoutp))).
  { destruct eoutp. cbn. rewrite app_nil_r. reflexivity. }
  unfold encode_one. destruct inp as [|c init].
  - intros [= <-]. exists (Result [] eoutp es ok), [].
    cbn [input output length]. repeat split; auto; lia.
  - destruct (negb (is_ignorable eh) && at_end eoutp) eqn:Hcheck.
    { intros [= <-]. eexists _, []. cbn [input output length].
      split; [right; eexists; split; [|reflexivity];
              destruct (is_ignorable eh); [discriminate | reflexivity]|].
      repeat split; auto; lia. }
    destruct (negb (is_ignorable eh) && (_ =? _)) eqn:Hrep.
    { intros [= <-]. eexists _, []. cbn [input output length].
      split; [right; eexists; split; [|reflexivity];
              destruct (is_ignorable eh); [discriminate | reflexivity]|].
      split; [right; eexists; reflexivity|]. repeat split; auto; lia. }
    set (arr := store_at_front _ _).
    assert (Harr : length arr = MB_LEN_MAX rt)
      by (unfold arr; rewrite store_at_front_keeps_length, length_replicate;
          reflexivity).
    destruct (copy_units _ arr _ _) as [o | o |] eqn:Hcopy; [| |discriminate].
    + intros [= <-].
      destruct (copy_units_positions _ _ _ _ _ (or_introl Hcopy))
        as (n & Hn & Hroom & ->).
      eexists _, (take n arr). cbn [input output].
      split; [left; reflexivity|]. split; [right; eexists; reflexivity|].
      rewrite length_take. unfold max_code_units.
      rewrite Nat.min_l by lia. repeat split; auto; lia.
    + intros [= <-].
      assert (is_ignorable eh = false) as Hign.
      { destruct (is_ignorable eh); [|reflexivity]. cbn [negb] in Hcopy.
        exfalso. exact (copy_units_unchecked _ _ _ _ Hcopy). }
      destruct (copy_units_positions _ _ _ _ _ (or_intror Hcopy))
        as (n & Hn & Hroom & ->).
      eexists _, (take n arr). cbn [input output].
      split; [right; eexists; split; [exact Hign | reflexivity]|].
      split; [right; eexists; reflexivity|].
      rewrite length_take. unfold max_code_units.
      rewrite Nat.min_l by lia. repeat split; auto; lia.
Qed.

(** With a handler that is not ignorable, [encode_one] stays inside its
    array, its input and its output, and returns, provided [c32rtomb] answers
    [(size_t)-1] or a count of at most [MB_LEN_MAX]. *)
Theorem encode_one_checked_is_defined inp eoutp eh es :
  is_ignorable eh = false ->
  (forall c init, inp = c :: init ->
     c32_res (c32rtomb rt c (enc_narrow_state rt es)) = size_t_cast (-1) \/
     c32_res (c32rtomb rt c (enc_narrow_state rt es)) <= Z.of_nat (MB_LEN_MAX rt)) ->
  exists res, encode_one rt inp eoutp eh es = Returns res.
Proof.
  intros Hign Hrt. unfold encode_one. destruct inp as [|c init]; [eexists; reflexivity|].
  rewrite Hign. cbn [negb andb]. destruct (at_end eoutp); [eexists; reflexivity|].
  destruct (Hrt c init eq_refl) as [Hrep | Hfit].
  - rewrite Hrep, Z.eqb_refl. eexists; reflexivity.
  - destruct (_ =? _); [eexists; reflexivity|].
    destruct (copy_units _ _ _ _) eqn:Hcopy; try (eexists; reflexivity).
    exfalso. revert Hcopy. apply copy_units_checked_is_defined.
    rewrite store_at_front_keeps_length, length_replicate. exact Hfit.
Qed.

(** With an ignorable handler nothing is checked: when the count [c32rtomb]
    answers is larger than [MB_LEN_MAX] (as [(size_t)-1] is, for a code point
    it cannot represent) or than the number of cells the output has left,
    [encode_one] reads or writes out of bounds and returns nothing. *)
Theorem encode_one_unchecked_overrun c init eoutp eh es :
  is_ignorable eh = true ->
  Z.of_nat (MB_LEN_MAX rt) < c32_res (c32rtomb rt c (enc_narrow_state rt es)) \/
  Z.of_nat (length (ahead eoutp)) < c32_res (c32rtomb rt c (enc_narrow_state rt es)) ->
  encode_one rt (c :: init) eoutp eh es = Undefined.
Proof.
  intros Hign Hover. unfold encode_one. rewrite Hign. cbn [negb andb].
  rewrite copy_units_unchecked_overrun; [reflexivity|].
  rewrite store_at_front_keeps_length, length_replicate. exact Hover.
Qed.

End EncodeOne.

(** ** Further properties of [decode_one] *)

Section DecodeOne.

Variable rt : c_runtime.

Implicit Types (s : decode_state rt) (h : decode_handler rt).
Implicit Types (outp : out_range code_point).

Lemma exhausted_app_false {A : Type} (l k : list A) :
  k <> [] -> exhausted (l ++ k) = false.
Proof. destruct l, k; (congruence || reflexivity). Qed.

(** The loop passes over every unit for which [mbrtoc32] asks for more (and,
    with an ignorable handler, every unit it rejects), storing it in the
    array and moving on to the next. *)
Lemma decode_loop_skips h s outp :
  forall (skipped : list code_unit) (remaining i : nat) (buf init : list code_unit),
    length buf = (i + length skipped + remaining)%nat ->
    is_ignorable h = true \/ init <> [] ->
    (forall j, (0 < j <= length skipped)%nat ->
       mb_res (mbrtoc32 rt (Some (take i buf ++ take j skipped)) (narrow_state rt s))
         = size_t_cast (-2) \/
       (is_ignorable h = true /\
        mb_res (mbrtoc32 rt (Some (take i buf ++ take j skipped)) (narrow_state rt s))
          = size_t_cast (-1))) ->
    decode_loop rt (length skipped + remaining) i (S i) buf (skipped ++ init) outp h s =
    decode_loop rt remaining (i + length skipped) (S (i + length skipped))
      (take i buf ++ skipped ++ drop (i + length skipped) buf) init outp h s.
Proof.
  induction skipped as [|u skipped IH]; intros remaining i buf init Hlen Hcheck Hpre.
  - cbn [length app Nat.add]. rewrite !Nat.add_0_r, take_drop. reflexivity.
  - cbn [length] in Hlen.
    assert (Hfirst := Hpre 1%nat ltac:(cbn [length]; lia)).
    change (take 1 (u :: skipped)) with [u] in Hfirst.
    cbn [length app Nat.add decode_loop].
    rewrite take_next_unit by lia.
    assert (Hgo :
      decode_loop rt (length skipped + remaining) (S i) (S (S i))
        (<[i:=u]> buf) (skipped ++ init) outp h s =
      decode_loop rt remaining (i + S (length skipped)) (S (i + S (length skipped)))
        (take i buf ++ (u :: skipped) ++ drop (i + S (length skipped)) buf)
        init outp h s).
    { rewrite IH.
      - rewrite take_next_unit by lia.
        rewrite drop_insert_lt by lia.
        replace (S i + length skipped)%nat with (i + S (length skipped))%nat by lia.
        rewrite <- app_assoc. reflexivity.
      - rewrite length_insert. lia.
      - exact Hcheck.
      - intros j Hj. rewrite take_next_unit by lia. rewrite <- app_assoc.
        apply (Hpre (S j)). cbn [length]. lia. }
    destruct Hfirst as [H2 | [Hign H1]].
    + rewrite H2, Z.eqb_refl.
      assert (negb (is_ignorable h) && exhausted (skipped ++ init) = false) as ->.
      { destruct Hcheck as [-> | Hne]; [reflexivity|].
        rewrite exhausted_app_false by exact Hne. apply andb_false_r. }
      exact Hgo.
    + rewrite H1, Hign. cbn [negb andb]. exact Hgo.
Qed.

(** The same from the start of [decode_one]'s loop. *)
Lemma decode_loop_after_skips h s outp (skipped init : list code_unit) :
  (length skipped <= max_code_units rt)%nat ->
  is_ignorable h = true \/ init <> [] ->
  (forall j, (0 < j <= length skipped)%nat ->
     mb_res (mbrtoc32 rt (Some (take j skipped)) (narrow_state rt s))
       = size_t_cast (-2) \/
     (is_ignorable h = true /\
      mb_res (mbrtoc32 rt (Some (take j skipped)) (narrow_state rt s))
        = size_t_cast (-1))) ->
  decode_loop rt (max_code_units rt) 0 1 (replicate (max_code_units rt) 0)
    (skipped ++ init) outp h s =
  decode_loop rt (max_code_units rt - length skipped) (length skipped)
    (S (length skipped))
    (skipped ++ replicate (max_code_units rt - length skipped) 0) init outp h s.
Proof.
  intros Hfit Hcheck Hpre.
  replace (max_code_units rt) with
    (length skipped + (max_code_units rt - length skipped))%nat at 1 by lia.
  rewrite decode_loop_skips.
  - rewrite take_0, drop_replicate. reflexivity.
  - rewrite length_replicate. lia.
  - exact Hcheck.
  - intros j Hj. rewrite take_0. apply Hpre. exact Hj.
Qed.

(** The array after one more unit is stored behind [n] units. *)
Lemma store_next_unit (units : list code_unit) (u : code_unit) (k : nat) :
  <[length units := u]> (units ++ replicate (S k) 0) = (units ++ [u]) ++ replicate k 0
  /\ take (S (length units)) (<[length units := u]> (units ++ replicate (S k) 0))
     = units ++ [u].
Proof.
  assert (<[length units := u]> (units ++ replicate (S k) 0)
          = (units ++ [u]) ++ replicate k 0) as ->.
  { replace (length units) with (length units + 0)%nat at 1 by lia.
    rewrite insert_app_r. cbn. rewrite <- app_assoc. reflexivity. }
  split; [reflexivity|].
  replace (S (length units)) with (length (units ++ [u]))
    by (rewrite length_app; cbn; lia).
  apply take_app_length.
Qed.

(** [decode_one] on success: when [mbrtoc32] asks for more on every proper
    prefix of [todo] and answers a count for [todo] itself, [decode_one]
    takes exactly the units of [todo], leaves [tail] in the input, writes the
    one code point [mbrtoc32] stored (zero if it stored none) and replaces
    the caller's narrow state by the one that call left. *)
Theorem decode_one_success todo tail outp h s cell rest m :
  output_pending rt s = false ->
  ahead outp = cell :: rest ->
  todo <> [] ->
  (length todo <= max_code_units rt)%nat ->
  (forall j, (0 < j < length todo)%nat ->
     mb_res (mbrtoc32 rt (Some (take j todo)) (narrow_state rt s)) = size_t_cast (-2)) ->
  mbrtoc32 rt (Some todo) (narrow_state rt s) = m ->
  mb_res m <> size_t_cast (-1) -> mb_res m <> size_t_cast (-2) ->
  mb_res m <> size_t_cast (-3) -> mb_res m <> 0 ->
  decode_one rt (todo ++ tail) outp h s =
    Returns (Result tail (OutRange (behind outp ++ [default 0 (mb_c32 m)]) rest)
               (DecodeState rt (mb_state m) false) ok).
Proof.
  intros Hpend Hout Hne Hfit Hpre Hm H1 H2 H3 H0.
  rewrite decode_one_consume;
    [|assumption | destruct todo; [congruence | discriminate]
     |rewrite Hout; discriminate].
  rewrite (decode_loop_consumes rt h s outp cell rest Hout _ _ _ _ _ m);
    try assumption.
  - rewrite Hpend. reflexivity.
  - rewrite length_replicate. reflexivity.
Qed.

(** A sequence cut short: when the handler is not ignorable and [mbrtoc32]
    asks for more on every prefix of an input of at most [max_code_units]
    units, the whole input included, [decode_one] takes the whole input and
    hands the handler [incomplete_sequence] with the output and the state as
    given and a span over exactly the units taken. *)
Theorem decode_one_truncated inp outp h s :
  is_ignorable h = false ->
  output_pending rt s = false ->
  ahead outp <> [] ->
  inp <> [] ->
  (length inp <= max_code_units rt)%nat ->
  (forall j, (0 < j <= length inp)%nat ->
     mb_res (mbrtoc32 rt (Some (take j inp)) (narrow_state rt s)) = size_t_cast (-2)) ->
  decode_one rt inp outp h s =
    Returns (invoke h (Result [] outp s incomplete_sequence)
               (Span (inp ++ replicate (max_code_units rt - length inp) 0)
                  (length inp))).
Proof.
  intros Hign Hpend Hout Hne Hfit Hpre.
  rewrite decode_one_consume by assumption.
  destruct (exists_last Hne) as (units & u & ->).
  rewrite length_app in *. cbn [length] in *.
  rewrite decode_loop_after_skips; [|lia|right; discriminate|].
  - destruct (max_code_units rt - length units)%nat as [|k] eqn:Hk; [lia|].
    cbn [decode_loop].
    destruct (store_next_unit units u k) as [-> ->].
    assert (Hall := Hpre (length units + 1)%nat ltac:(lia)).
    rewrite take_ge in Hall by (rewrite length_app; cbn; lia).
    rewrite Hall, Z.eqb_refl, Hign. cbn [negb andb exhausted].
    replace (max_code_units rt - (length units + 1))%nat with k by lia.
    replace (length units + 1)%nat with (S (length units)) by lia.
    reflexivity.
  - intros j Hj. left. specialize (Hpre j ltac:(lia)).
    rewrite take_app_le in Hpre by lia. exact Hpre.
Qed.

(** An invalid sequence: when the handler is not ignorable and [mbrtoc32]
    asks for more on the prefixes of [units] and answers [(size_t)-1] once
    [u] is added, [decode_one] hands the handler [invalid_sequence] with the
    input past [u] (the units taken are not given back), the output and the
    state as given, and a span over exactly the units taken. *)
Theorem decode_one_invalid units u tail outp h s :
  is_ignorable h = false ->
  output_pending rt s = false ->
  ahead outp <> [] ->
  (length units < max_code_units rt)%nat ->
  (forall j, (0 < j <= length units)%nat ->
     mb_res (mbrtoc32 rt (Some (take j units)) (narrow_state rt s)) = size_t_cast (-2)) ->
  mb_res (mbrtoc32 rt (Some (units ++ [u])) (narrow_state rt s)) = size_t_cast (-1) ->
  decode_one rt (units ++ u :: tail) outp h s =
    Returns (invoke h (Result tail outp s invalid_sequence)
               (Span ((units ++ [u]) ++
                        replicate (max_code_units rt - S (length units)) 0)
                  (S (length units)))).
Proof.
  intros Hign Hpend Hout Hfit Hpre Hbad.
  rewrite decode_one_consume;
    [|assumption | destruct units; discriminate | assumption].
  rewrite decode_loop_after_skips; [|lia|right; discriminate|].
  - destruct (max_code_units rt - length units)%nat as [|k] eqn:Hk; [lia|].
    cbn [decode_loop].
    destruct (store_next_unit units u k) as [-> ->].
    rewrite Hbad, Hign. cbn [negb].
    replace (max_code_units rt - S (length units))%nat with k by lia.
    reflexivity.
  - intros j Hj. left. apply Hpre. exact Hj.
Qed.

(** The bound: when the handler is not ignorable and [mbrtoc32] asks for
    more on each of the first [max_code_units] prefixes of a longer input,
    [decode_one] stops after [max_code_units] units and hands the handler
    [incomplete_sequence] with the input past those units; the span it
    passes is over the array of [max_code_units] units and announces
    [max_code_units + 1] of them. *)
Theorem decode_one_exhausts_bound inp outp h s :
  is_ignorable h = false ->
  output_pending rt s = false ->
  ahead outp <> [] ->
  (max_code_units rt < length inp)%nat ->
  (forall j, (0 < j <= max_code_units rt)%nat ->
     mb_res (mbrtoc32 rt (Some (take j inp)) (narrow_state rt s)) = size_t_cast (-2)) ->
  decode_one rt inp outp h s =
    Returns (invoke h
               (Result (drop (max_code_units rt) inp) outp s incomplete_sequence)
               (Span (take (max_code_units rt) inp) (S (max_code_units rt)))).
Proof.
  intros Hign Hpend Hout Hlong Hpre.
  rewrite decode_one_consume;
    [|assumption | destruct inp; [cbn in Hlong; lia | discriminate] | assumption].
  assert (Hlen : length (take (max_code_units rt) inp) = max_code_units rt)
    by (rewrite length_take; lia).
  rewrite <- (take_drop (max_code_units rt) inp) at 1.
  rewrite decode_loop_after_skips.
  - rewrite Hlen, Nat.sub_diag. cbn [replicate decode_loop].
    rewrite app_nil_r, Hign. reflexivity.
  - lia.
  - right. intros Hnil. apply (f_equal length) in Hnil.
    rewrite length_drop in Hnil. cbn in Hnil. lia.
  - intros j Hj. left. rewrite take_take, Nat.min_l by lia. apply Hpre. lia.
Qed.

(** With an ignorable handler [decode_one] reports nothing: when [mbrtoc32]
    asks for more or answers [(size_t)-1] on every prefix it is given (those
    of at most [max_code_units] units), [decode_one] reads past the end of
    the input, or leaves its loop and reaches the end of the function without
    a [return]; no result comes back. *)
Theorem decode_one_unchecked_unresolved inp outp h s :
  is_ignorable h = true ->
  output_pending rt s = false ->
  inp <> [] ->
  (forall j, (0 < j <= length inp)%nat -> (j <= max_code_units rt)%nat ->
     mb_res (mbrtoc32 rt (Some (take j inp)) (narrow_state rt s)) = size_t_cast (-2) \/
     mb_res (mbrtoc32 rt (Some (take j inp)) (narrow_state rt s)) = size_t_cast (-1)) ->
  decode_one rt inp outp h s = Undefined.
Proof.
  intros Hign Hpend Hne Hpre. unfold decode_one.
  destruct inp as [|u0 inp0] eqn:Hinp; [congruence|]. rewrite <- Hinp in *.
  rewrite Hign, Hpend. cbn [negb andb].
  set (n := Nat.min (length inp) (max_code_units rt)).
  assert (Hlen : length (take n inp) = n) by (rewrite length_take; unfold n; lia).
  rewrite <- (take_drop n inp) at 1.
  rewrite decode_loop_after_skips.
  - rewrite Hlen.
    destruct (max_code_units rt - n)%nat as [|k] eqn:Hk.
    + cbn [decode_loop]. rewrite Hign. reflexivity.
    + cbn [decode_loop]. rewrite drop_ge by (unfold n in *; lia). reflexivity.
  - rewrite Hlen. unfold n. lia.
  - left. exact Hign.
  - intros j Hj. rewrite Hlen in Hj. rewrite take_take, Nat.min_l by lia.
    assert (Hj1 : (0 < j <= length inp)%nat) by (unfold n in *; lia).
    assert (Hj2 : (j <= max_code_units rt)%nat) by (unfold n in *; lia).
    destruct (Hpre j Hj1 Hj2) as [H2 | H1].
    + left. exact H2.
    + right. split; [exact Hign | exact H1].
Qed.

(** With the checks on, the loop never reads past the input and never writes
    without a cell. *)
Lemma decode_loop_checked_is_defined h s outp :
  is_ignorable h = false ->
  ahead outp <> [] ->
  forall (remaining state_offset state_count : nat) (buf init : list code_unit),
    init <> [] ->
    exists r,
      decode_loop rt remaining state_offset state_count buf init outp h s = Returns r.
Proof.
  intros Hign Hout.
  assert (Hput : forall c, exists o, put outp c = Some o).
  { intros c. unfold put. destruct (ahead outp); [congruence | eexists; reflexivity]. }
  induction remaining as [|remaining IH]; intros state_offset state_count buf init Hne;
    cbn [decode_loop]; rewrite Hign; cbn [negb andb]; [eexists; reflexivity|].
  destruct init as [|u init']; [congruence|].
  destruct (_ =? size_t_cast (-2)).
  { destruct init' as [|v init'']; [eexists; reflexivity|].
    cbn [exhausted]. apply IH. discriminate. }
  destruct (_ =? size_t_cast (-3)).
  { destruct (Hput (default 0 (mb_c32 (mbrtoc32 rt
               (Some (take state_count (<[state_offset:=u]> buf)))
               (narrow_state rt s))))) as [o ->].
    eexists; reflexivity. }
  destruct (_ =? size_t_cast (-1)); [eexists; reflexivity|].
  destruct (_ =? 0); [eexists; reflexivity|].
  destruct (Hput (default 0 (mb_c32 (mbrtoc32 rt
             (Some (take state_count (<[state_offset:=u]> buf)))
             (narrow_state rt s))))) as [o ->].
  eexists; reflexivity.
Qed.

(** With a handler that is not ignorable, [decode_one] returns on every
    input, output, state and C runtime: it reads no unit past the end of the
    input and writes no code point past the end of the output. *)
Theorem decode_one_checked_is_defined inp outp h s :
  is_ignorable h = false ->
  exists r, decode_one rt inp outp h s = Returns r.
Proof.
  intros Hign. unfold decode_one. destruct inp as [|u inp']; [eexists; reflexivity|].
  rewrite Hign. cbn [negb andb].
  destruct (at_end outp) eqn:Hend; [eexists; reflexivity|].
  assert (Hout : ahead outp <> [])
    by (unfold at_end in Hend; destruct (ahead outp); [discriminate | discriminate]).
  destruct (output_pending rt s).
  - unfold decode_drain. rewrite Hign. cbn [negb andb].
    destruct (_ =? _); [eexists; reflexivity|].
    unfold put. destruct (ahead outp); [congruence | eexists; reflexivity].
  - apply decode_loop_checked_is_defined; [exact Hign | exact Hout | discriminate].
Qed.

(** Whatever the loop returns was built on the input advanced by [k] units,
    at least one unless the loop had no iteration left, and on the output as
    given or advanced by one written cell. *)
Lemma decode_loop_positions h s outp :
  forall (remaining state_offset state_count : nat) (buf init : list code_unit)
         (r : decode_result rt),
    decode_loop rt remaining state_offset state_count buf init outp h s = Returns r ->
    exists (r0 : decode_result rt) (k : nat),
      (r = r0 \/ exists sp, is_ignorable h = false /\ r = invoke h r0 sp) /\
      (k <= remaining)%nat /\ (k <= length init)%nat /\
      (remaining = 0%nat \/ 1 <= k)%nat /\
      input r0 = drop k init /\
      (output r0 = outp \/
       exists c cell rest,
         ahead outp = cell :: rest /\ output r0 = OutRange (behind outp ++ [c]) rest).
Proof.
  assert (Hput : forall c o, put outp c = Some o ->
            exists c' cell rest,
              ahead outp = cell :: rest /\ o = OutRange (behind outp ++ [c']) rest).
  { intros c o. unfold put. destruct (ahead outp) as [|cell rest]; [discriminate|].
    intros [= <-]. eexists _, _, _. split; reflexivity. }
  assert (Hcall : forall b : bool, negb (is_ignorable h) && b = true ->
            is_ignorable h = false)
    by (intros b; destruct (is_ignorable h); [discriminate | reflexivity]).
  induction remaining as [|remaining IH]; intros state_offset state_count buf init r;
    cbn [decode_loop].
  - destruct (negb (is_ignorable h)) eqn:Hc; [|discriminate].
    intros [= <-]. eexists _, 0%nat. cbn [input output drop].
    split; [right; eexists; split; [|reflexivity];
            destruct (is_ignorable h); [discriminate | reflexivity]|].
    repeat split; auto; lia.
  - destruct init as [|u init']; [discriminate|].
    assert (Hnext : forall r',
      decode_loop rt remaining (S state_offset) (S state_count)
        (<[state_offset:=u]> buf) init' outp h s = Returns r' ->
      exists (r0 : decode_result rt) (k : nat),
        (r' = r0 \/ exists sp, is_ignorable h = false /\ r' = invoke h r0 sp) /\
        (k <= S remaining)%nat /\ (k <= length (u :: init'))%nat /\
        (S remaining = 0%nat \/ 1 <= k)%nat /\
        input r0 = drop k (u :: init') /\
        (output r0 = outp \/
         exists c cell rest,
           ahead outp = cell :: rest /\
           output r0 = OutRange (behind outp ++ [c]) rest)).
    { intros r' Hr'. apply IH in Hr'.
      destruct Hr' as (r0 & k & Horigin & Hk & Hlen & _ & Hin & Hout).
      exists r0, (S k). cbn [length drop].
      repeat split; auto; lia. }
    assert (Hstep : forall (r0 : decode_result rt),
      input r0 = init' ->
      (output r0 = outp \/
       exists c cell rest,
         ahead outp = cell :: rest /\ output r0 = OutRange (behind outp ++ [c]) rest) ->
      forall r', (r' = r0 \/ exists sp, is_ignorable h = false /\ r' = invoke h r0 sp) ->
      exists (r1 : decode_result rt) (k : nat),
        (r' = r1 \/ exists sp, is_ignorable h = false /\ r' = invoke h r1 sp) /\
        (k <= S remaining)%nat /\ (k <= length (u :: init'))%nat /\
        (S remaining = 0%nat \/ 1 <= k)%nat /\
        input r1 = drop k (u :: init') /\
        (output r1 = outp \/
         exists c cell rest,
           ahead outp = cell :: rest /\
           output r1 = OutRange (behind outp ++ [c]) rest)).
    { intros r0 Hin Hout r' Horigin. exists r0, 1%nat. cbn [length drop].
      repeat split; auto; lia. }
    destruct (_ =? size_t_cast (-2)).
    { destruct (negb (is_ignorable h) && exhausted init') eqn:Hc; [|apply Hnext].
      intros [= <-]. eapply Hstep; [| |right; eexists; split; [|reflexivity]].
      - reflexivity.
      - left. reflexivity.
      - exact (Hcall _ Hc). }
    destruct (_ =? size_t_cast (-3)).
    { destruct (put outp _) as [o|] eqn:Ho; [|discriminate].
      intros [= <-]. eapply Hstep; [| |left; reflexivity].
      - reflexivity.
      - right. exact (Hput _ _ Ho). }
    destruct (_ =? size_t_cast (-1)).
    { destruct (negb (is_ignorable h)) eqn:Hc; [|apply Hnext].
      intros [= <-]. eapply Hstep; [| |right; eexists; split; [|reflexivity]].
      - reflexivity.
      - left. reflexivity.
      - destruct (is_ignorable h); [discriminate | reflexivity]. }
    destruct (_ =? 0).
    { intros [= <-]. eapply Hstep; [| |left; reflexivity].
      - reflexivity.
      - left. reflexivity. }
    destruct (put outp _) as [o|] eqn:Ho; [|discriminate].
    intros [= <-]. eapply Hstep; [| |left; reflexivity].
    + reflexivity.
    + right. exact (Hput _ _ Ho).
Qed.

(** What [decode_one] never does: whenever it returns, the result it built
    (returned as it is, or handed to the handler) has the input advanced by
    at most [max_code_units] units and the output as given or advanced by
    exactly one written cell, the cells behind the given position being as
    they were. *)
Theorem decode_one_positions inp outp h s r :
  decode_one rt inp outp h s = Returns r ->
  exists (r0 : decode_result rt) (k : nat),
    (r = r0 \/ exists sp, is_ignorable h = false /\ r = invoke h r0 sp) /\
    (k <= max_code_units rt)%nat /\ (k <= length inp)%nat /\
    input r0 = drop k inp /\
    (output r0 = outp \/
     exists c cell rest,
       ahead outp = cell :: rest /\ output r0 = OutRange (behind outp ++ [c]) rest).
Proof.
  unfold decode_one. destruct inp as [|u inp'] eqn:Hinp.
  - intros [= <-]. exists (Result [] outp s ok), 0%nat. cbn [input output drop].
    repeat split; auto; lia.
  - rewrite <- Hinp.
    destruct (negb (is_ignorable h) && at_end outp) eqn:Hc.
    { intros [= <-]. eexists _, 0%nat. cbn [input output drop].
      split; [right; eexists; split; [|reflexivity];
              destruct (is_ignorable h); [discriminate | reflexivity]|].
      repeat split; auto; lia. }
    destruct (output_pending rt s).
    + unfold decode_drain.
      destruct (negb (is_ignorable h) && (_ =? _)) eqn:Hd.
      { intros [= <-]. eexists _, 0%nat. cbn [input output drop].
        split; [right; eexists; split; [|reflexivity];
                destruct (is_ignorable h); [discriminate | reflexivity]|].
        repeat split; auto; lia. }
      unfold put. destruct (ahead outp) as [|cell rest] eqn:Ha; [discriminate|].
      intros [= <-]. eexists _, 0%nat. cbn [input output drop].
      split; [left; reflexivity|]. repeat split; try lia.
      right. eexists _, _, _. split; reflexivity.
    + intros Hr. apply decode_loop_positions in Hr.
      destruct Hr as (r0 & k & Horigin & Hk & Hlen & _ & Hin & Hout).
      exists r0, k. repeat split; assumption.
Qed.

(** Progress: when nothing is pending and the consume loop is entered,
    whatever [decode_one] returns was built on an input advanced by at least
    one unit, error reports included: the units of a sequence that is cut
    short or invalid are not given back. *)
Theorem decode_one_takes_a_unit inp outp h s r :
  output_pending rt s = false ->
  (0 < max_code_units rt)%nat ->
  is_ignorable h = true \/ ahead outp <> [] ->
  decode_one rt inp outp h s = Returns r ->
  inp = [] \/
  exists (r0 : decode_result rt) (k : nat),
    (r = r0 \/ exists sp, is_ignorable h = false /\ r = invoke h r0 sp) /\
    (1 <= k <= max_code_units rt)%nat /\ (k <= length inp)%nat /\
    input r0 = drop k inp.
Proof.
  intros Hpend Hmax Hcheck. unfold decode_one.
  destruct inp as [|u inp'] eqn:Hinp; [left; reflexivity|]. rewrite <- Hinp.
  assert (negb (is_ignorable h) && at_end outp = false) as ->.
  { destruct Hcheck as [-> | Hne]; [reflexivity|].
    rewrite (at_end_false _ Hne). apply andb_false_r. }
  rewrite Hpend. intros Hr. right. apply decode_loop_positions in Hr.
  destruct Hr as (r0 & k & Horigin & Hk & Hlen & Hone & Hin & _).
  exists r0, k. repeat split; try assumption. lia.
Qed.

(** A code point owed by the runtime: when [mbrtoc32] answers [(size_t)-3]
    for the unit read and stores the code point [b], [decode_one] writes
    [b], commits the narrow state, sets [output_pending] and returns [ok]
    with that unit taken from the input; when the null probe of the next
    call then stores nothing and answers 0, that call takes no input, writes
    the zero its buffer holds, clears [output_pending] and returns [ok]. *)
Theorem owed_code_point_then_drain u tail outp h st1 st2 st3 b cell1 cell2 cells :
  (0 < max_code_units rt)%nat ->
  tail <> [] ->
  ahead outp = cell1 :: cell2 :: cells ->
  mbrtoc32 rt (Some [u]) st1 = MbResult (size_t_cast (-3)) (Some b) st2 ->
  mbrtoc32 rt None st2 = MbResult 0 None st3 ->
  decode_one rt (u :: tail) outp h (DecodeState rt st1 false) =
    Returns (Result tail (OutRange (behind outp ++ [b]) (cell2 :: cells))
               (DecodeState rt st2 true) ok)
  /\ decode_one rt tail (OutRange (behind outp ++ [b]) (cell2 :: cells)) h
       (DecodeState rt st2 true) =
     Returns (Result tail (OutRange (behind outp ++ [b; 0]) cells)
                (DecodeState rt st3 false) ok).
Proof.
  intros Hmax Hne Hout Hfirst Hprobe. split.
  - rewrite decode_one_consume; [|reflexivity|discriminate|rewrite Hout; discriminate].
    destruct (max_code_units rt) as [|n]; [lia|].
    cbn [decode_loop replicate narrow_state].
    change (take 1 (<[0%nat:=u]> (0 :: replicate n 0))) with [u].
    rewrite Hfirst. cbn [mb_res mb_c32 mb_state default].
    rewrite (put_cell _ _ _ _ Hout). reflexivity.
  - unfold decode_one. destruct tail as [|v tail']; [congruence|].
    cbn [at_end ahead output_pending]. rewrite andb_false_r.
    unfold decode_drain. cbn [narrow_state]. rewrite Hprobe.
    cbn [mb_res mb_c32 mb_state default put ahead behind].
    rewrite andb_false_r, <- app_assoc. reflexivity.
Qed.

(** On a C runtime whose [mbrtoc32] never answers [(size_t)-3] when given
    units, [output_pending] stays clear: from a state in which it is clear,
    every result [decode_one] builds (returned as it is, or handed to the
    handler) carries a state in which it is clear, so the drain branch is
    never taken. *)
Theorem output_pending_stays_clear inp outp h s r :
  (forall units st, mb_res (mbrtoc32 rt (Some units) st) <> size_t_cast (-3)) ->
  output_pending rt s = false ->
  decode_one rt inp outp h s = Returns r ->
  exists r0 : decode_result rt,
    (r = r0 \/ exists sp, is_ignorable h = false /\ r = invoke h r0 sp) /\
    output_pending rt (state r0) = false.
Proof.
  intros Hnever Hpend. unfold decode_one. destruct inp as [|u inp'] eqn:Hinp.
  - intros [= <-]. eexists. split; [left; reflexivity | exact Hpend].
  - rewrite <- Hinp.
    destruct (negb (is_ignorable h) && at_end outp) eqn:Hc.
    { intros [= <-]. exists (Result inp outp s insufficient_output_space).
      split; [|exact Hpend]. right. eexists. split; [|reflexivity].
      destruct (is_ignorable h); [discriminate | reflexivity]. }
    rewrite Hpend. intros Hr.
    apply decode_loop_cases in Hr; [|rewrite length_replicate; lia].
    destruct Hr as [(r0 & sp & Hign & -> & Hs & _)
                   | [(k & _ & _ & ->) | (k & o & _ & _ & _ & _ & _ & ->)]].
    + exists r0. split; [right; exists sp; split; [exact Hign | reflexivity]|].
      rewrite Hs. exact Hpend.
    + eexists. split; [left; reflexivity | exact Hpend].
    + eexists. split; [left; reflexivity|]. cbn [state output_pending].
      rewrite Hpend, orb_false_r. apply Z.eqb_neq. apply Hnever.
Qed.

End DecodeOne.

(** ** The further properties on concrete inputs *)

(** U+FF71 from the first character set of the shift locale: SO and the
    unit 49 are written, and the state records the second set. *)
Lemma encode_one_success_witness :
  encode_one ShiftLocale.runtime [65393; 65] (fresh_output 4 0) pass_through
    (new_encode_state ShiftLocale.runtime) =
    Returns (Result [65] (OutRange [14; 49] [0; 0])
               (EncodeState ShiftLocale.runtime true false) ok).
Proof.
  apply (encode_one_success ShiftLocale.runtime 65393 [65] (fresh_output 4 0)
           pass_through (new_encode_state ShiftLocale.runtime)
           (ShiftLocale.c32rtomb 65393 false) eq_refl).
  - reflexivity.
  - vm_compute. discriminate.
  - vm_compute. lia.
  - vm_compute. lia.
  - right. discriminate.
Defined.

(** U+00E9 in the UTF-8 locale with one output cell: the report was built on
    the input past the code point and on the output past the one unit
    written. *)
Lemma encode_one_positions_witness :
  exists (r0 : encode_result Utf8Locale.runtime) (written : list code_unit),
    (Result [65] (OutRange [195] []) (new_encode_state Utf8Locale.runtime)
       insufficient_output_space = r0 \/
     exists sp : span code_point,
       is_ignorable (@pass_through (encode_result Utf8Locale.runtime) code_point)
         = false /\
       Result [65] (OutRange [195] []) (new_encode_state Utf8Locale.runtime)
         insufficient_output_space = invoke pass_through r0 sp) /\
    (input r0 = [233; 65] \/ exists c, [233; 65] = c :: input r0) /\
    (length written <= max_code_units Utf8Locale.runtime)%nat /\
    (length written <= length (ahead (fresh_output 1 0)))%nat /\
    output r0 =
      OutRange (behind (fresh_output 1 0) ++ written)
        (drop (length written) (ahead (fresh_output 1 0))).
Proof.
  apply (encode_one_positions Utf8Locale.runtime [233; 65] (fresh_output 1 0)
           pass_through (new_encode_state Utf8Locale.runtime)).
  reflexivity.
Defined.

(** U+00E9 in the UTF-8 locale with one output cell and a handler that is
    called: a result comes back. *)
Lemma encode_one_checked_is_defined_witness :
  exists res,
    encode_one Utf8Locale.runtime [233] (fresh_output 1 0) pass_through
      (new_encode_state Utf8Locale.runtime) = Returns res.
Proof.
  apply (encode_one_checked_is_defined Utf8Locale.runtime [233] (fresh_output 1 0)
           pass_through (new_encode_state Utf8Locale.runtime)).
  - reflexivity.
  - intros c init [= <- <-]. right. apply Z.leb_le. reflexivity.
Defined.

(** U+00E9 in the US-ASCII locale with an ignorable handler. *)
Lemma encode_one_unchecked_overrun_witness :
  encode_one AsciiLocale.runtime [233] (fresh_output 4 0) assume_valid
    (new_encode_state AsciiLocale.runtime) = Undefined.
Proof.
  apply (encode_one_unchecked_overrun AsciiLocale.runtime 233 [] (fresh_output 4 0)
           assume_valid (new_encode_state AsciiLocale.runtime)).
  - reflexivity.
  - left. reflexivity.
Defined.

(** SO, 49, 65 in the shift locale: the first call takes SO and 49, writes
    U+FF71 and leaves the second set invoked. *)
Lemma decode_one_success_witness :
  decode_one ShiftLocale.runtime [14; 49; 65] (fresh_output 4 0) pass_through
    (new_decode_state ShiftLocale.runtime) =
    Returns (Result [65] (OutRange [65393] [0; 0; 0])
               (DecodeState ShiftLocale.runtime true false) ok).
Proof.
  apply (decode_one_success ShiftLocale.runtime [14; 49] [65] (fresh_output 4 0)
           pass_through (new_decode_state ShiftLocale.runtime) 0 [0; 0; 0]
           (ShiftLocale.mbrtoc32 (Some [14; 49]) false)).
  - reflexivity.
  - reflexivity.
  - discriminate.
  - cbn. lia.
  - intros j Hj. assert (j = 1%nat) as -> by (cbn in Hj; lia). reflexivity.
  - reflexivity.
  - vm_compute. discriminate.
  - vm_compute. discriminate.
  - vm_compute. discriminate.
  - vm_compute. discriminate.
Defined.

(** The first two units of U+1F600 and nothing after them. *)
Lemma decode_one_truncated_witness :
  decode_one Utf8Locale.runtime [240; 159] (fresh_output 1 7) pass_through
    (new_decode_state Utf8Locale.runtime) =
    Returns (Result [] (OutRange [] [7]) (new_decode_state Utf8Locale.runtime)
               incomplete_sequence).
Proof.
  apply (decode_one_truncated Utf8Locale.runtime [240; 159] (fresh_output 1 7)
           pass_through (new_decode_state Utf8Locale.runtime)).
  - reflexivity.
  - reflexivity.
  - discriminate.
  - discriminate.
  - cbn. lia.
  - intros j Hj. cbn in Hj.
    destruct j as [|[|[|j]]]; try lia; reflexivity.
Defined.

(** A lead byte followed by a letter. *)
Lemma decode_one_invalid_witness :
  decode_one Utf8Locale.runtime [195; 65; 66] (fresh_output 1 7) pass_through
    (new_decode_state Utf8Locale.runtime) =
    Returns (Result [66] (OutRange [] [7]) (new_decode_state Utf8Locale.runtime)
               invalid_sequence).
Proof.
  apply (decode_one_invalid Utf8Locale.runtime [195] 65 [66] (fresh_output 1 7)
           pass_through (new_decode_state Utf8Locale.runtime)).
  - reflexivity.
  - reflexivity.
  - discriminate.
  - cbn. lia.
  - intros j Hj. assert (j = 1%nat) as -> by (cbn in Hj; lia). reflexivity.
  - reflexivity.
Defined.

(** Seventeen SO units in the shift locale: sixteen are taken, the last one
    is left in the input. *)
Lemma decode_one_exhausts_bound_witness :
  decode_one ShiftLocale.runtime (replicate 17 14) (fresh_output 1 7) pass_through
    (new_decode_state ShiftLocale.runtime) =
    Returns (Result [14] (OutRange [] [7]) (new_decode_state ShiftLocale.runtime)
               incomplete_sequence).
Proof.
  apply (decode_one_exhausts_bound ShiftLocale.runtime (replicate 17 14)
           (fresh_output 1 7) pass_through (new_decode_state ShiftLocale.runtime)).
  - reflexivity.
  - reflexivity.
  - discriminate.
  - cbn. lia.
  - intros j Hj. change (max_code_units ShiftLocale.runtime) with 16%nat in Hj.
    do 17 (destruct j as [|j]; [try lia; reflexivity|]). lia.
Defined.

(** A byte that starts no character, with a handler that is called. *)
Lemma decode_one_checked_is_defined_witness :
  exists r,
    decode_one Utf8Locale.runtime [255] (fresh_output 1 7) pass_through
      (new_decode_state Utf8Locale.runtime) = Returns r.
Proof.
  apply (decode_one_checked_is_defined Utf8Locale.runtime [255] (fresh_output 1 7)
           pass_through (new_decode_state Utf8Locale.runtime)).
  reflexivity.
Defined.

(** The two units of U+00E9 and a letter: the result was built on the input
    advanced by two units and on the output advanced by one cell. *)
Lemma decode_one_positions_witness :
  exists (r0 : decode_result Utf8Locale.runtime) (k : nat),
    (Result [65] (OutRange [233] []) (new_decode_state Utf8Locale.runtime) ok = r0 \/
     exists sp : span code_unit,
       is_ignorable (@pass_through (decode_result Utf8Locale.runtime) code_unit)
         = false /\
       Result [65] (OutRange [233] []) (new_decode_state Utf8Locale.runtime) ok
         = invoke pass_through r0 sp) /\
    (k <= max_code_units Utf8Locale.runtime)%nat /\
    (k <= length [195; 169; 65])%nat /\
    input r0 = drop k [195; 169; 65] /\
    (output r0 = fresh_output 1 7 \/
     exists c cell rest,
       ahead (fresh_output 1 7) = cell :: rest /\
       output r0 = OutRange (behind (fresh_output 1 7) ++ [c]) rest).
Proof.
  apply (decode_one_positions Utf8Locale.runtime [195; 169; 65] (fresh_output 1 7)
           pass_through (new_decode_state Utf8Locale.runtime)).
  reflexivity.
Defined.

(** A lead byte with nothing after it and an ignorable handler. *)
Lemma decode_one_unchecked_unresolved_witness :
  decode_one Utf8Locale.runtime [195] (fresh_output 1 7) assume_valid
    (new_decode_state Utf8Locale.runtime) = Undefined.
Proof.
  apply (decode_one_unchecked_unresolved Utf8Locale.runtime [195] (fresh_output 1 7)
           assume_valid (new_decode_state Utf8Locale.runtime)).
  - reflexivity.
  - reflexivity.
  - discriminate.
  - intros j Hj _. assert (j = 1%nat) as -> by (cbn in Hj; lia).
    left. reflexivity.
Defined.

(** A byte that starts no character, then a letter: the report was built on
    the input past the byte. *)
Lemma decode_one_takes_a_unit_witness :
  [255; 65] = [] \/
  exists (r0 : decode_result Utf8Locale.runtime) (k : nat),
    (Result [65] (OutRange [] [7]) (new_decode_state Utf8Locale.runtime)
       invalid_sequence = r0 \/
     exists sp : span code_unit,
       is_ignorable (@pass_through (decode_result Utf8Locale.runtime) code_unit)
         = false /\
       Result [65] (OutRange [] [7]) (new_decode_state Utf8Locale.runtime)
         invalid_sequence = invoke pass_through r0 sp) /\
    (1 <= k <= max_code_units Utf8Locale.runtime)%nat /\
    (k <= length [255; 65])%nat /\
    input r0 = drop k [255; 65].
Proof.
  apply (decode_one_takes_a_unit Utf8Locale.runtime [255; 65] (fresh_output 1 7)
           pass_through (new_decode_state Utf8Locale.runtime)).
  - reflexivity.
  - cbn. lia.
  - right. discriminate.
  - reflexivity.
Defined.

(** The pair locale after the unit 136 was read and U+0B9C written: the
    call on 65, 66 writes U+0BCD and takes 65; the call after it writes a
    zero and takes nothing. *)
Lemma owed_code_point_then_drain_witness :
  decode_one PairLocale.runtime [65; 66] (OutRange [2972] [0; 0; 0]) pass_through
    (DecodeState PairLocale.runtime (Some 3021) false) =
    Returns (Result [66] (OutRange [2972; 3021] [0; 0])
               (DecodeState PairLocale.runtime None true) ok)
  /\ decode_one PairLocale.runtime [66] (OutRange [2972; 3021] [0; 0]) pass_through
       (DecodeState PairLocale.runtime None true) =
     Returns (Result [66] (OutRange [2972; 3021; 0] [0])
                (DecodeState PairLocale.runtime None false) ok).
Proof.
  apply (owed_code_point_then_drain PairLocale.runtime 65 [66]
           (OutRange [2972] [0; 0; 0]) pass_through
           (Some 3021) None None 3021 0 0 [0]).
  - cbn. lia.
  - discriminate.
  - reflexivity.
  - reflexivity.
  - reflexivity.
Defined.

(** The US-ASCII locale never answers [(size_t)-3]. *)
Lemma output_pending_stays_clear_witness :
  exists r0 : decode_result AsciiLocale.runtime,
    (Result [66] (OutRange [65] []) (new_decode_state AsciiLocale.runtime) ok = r0 \/
     exists sp : span code_unit,
       is_ignorable (@pass_through (decode_result AsciiLocale.runtime) code_unit)
         = false /\
       Result [66] (OutRange [65] []) (new_decode_state AsciiLocale.runtime) ok
         = invoke pass_through r0 sp) /\
    output_pending AsciiLocale.runtime (state r0) = false.
Proof.
  apply (output_pending_stays_clear AsciiLocale.runtime [65; 66] (fresh_output 1 7)
           pass_through (new_decode_state AsciiLocale.runtime)).
  - intros units st. destruct units as [|b units]; cbn;
      [|destruct (b =? 0); [|destruct ((0 <? b) && (b <? 128))]];
      cbn; vm_compute; discriminate.
  - reflexivity.
  - reflexivity.
Defined.

(** ** Properties of the branch for Windows *)

Section WindowsBranch.

Variable w : Windows.runtime.

Implicit Types (s : decode_state (Windows.crt w)) (h : decode_handler (Windows.crt w)).
Implicit Types (es : encode_state (Windows.crt w)) (eh : encode_handler (Windows.crt w)).

Lemma windows_copy_units_first (call_error_handler : bool) (b0 : code_unit)
    (more : list code_unit) (n : nat) :
  forall (written cells : list code_unit),
    (n <= length cells)%nat ->
    Windows.copy_units call_error_handler (b0 :: more) (Z.of_nat n) written cells =
      Copied (OutRange (written ++ replicate n b0) (drop n cells)).
Proof.
  induction n as [|n IH]; intros written cells Hroom.
  - destruct cells; cbn; rewrite app_nil_r; reflexivity.
  - destruct cells as [|cell rest]; [cbn in Hroom; lia|].
    cbn [Windows.copy_units].
    destruct (0 <? Z.of_nat (S n)) eqn:E; [|apply Z.ltb_ge in E; lia].
    replace (Z.of_nat (S n) - 1) with (Z.of_nat n) by lia.
    cbn [length] in Hroom. rewrite IH by lia.
    cbn [replicate drop]. rewrite <- app_assoc. reflexivity.
Qed.

Lemma windows_copy_units_unchecked (cells : list code_unit) :
  forall (it : list code_unit) (res : Z) (written : list code_unit)
         (o : out_range code_unit),
    Windows.copy_units false it res written cells <> OutOfSpace o.
Proof.
  induction cells as [|cell rest IH]; intros it res written o;
    cbn [Windows.copy_units]; destruct (0 <? res); try discriminate.
  destruct it; [discriminate | apply IH].
Qed.

(** The copy loop on Windows does not advance through the converted units:
    on a code page other than UTF-8, when the UTF-16 step succeeds and
    [WideCharToMultiByte] answers [n] units, the first of them being [b0],
    [encode_one] writes [b0] [n] times into the output (for a character of
    two units, its first unit twice) and returns [ok]. *)
Theorem windows_encode_one_repeats_first_unit inp eoutp eh es ir conv b0 more n :
  Windows.determine_active_code_page w <> Windows.CP_UTF8 ->
  Windows.utf16_encode_one w inp (OutRange [] (replicate 8 0)) (is_ignorable eh) = ir ->
  Windows.ir_error_code ir = ok ->
  Windows.WideCharToMultiByte w (Windows.determine_active_code_page w)
    (behind (Windows.ir_output ir)) = conv ->
  Windows.conv_res conv = Z.of_nat n ->
  (0 < n <= length (ahead eoutp))%nat ->
  Windows.conv_stored conv = b0 :: more ->
  Windows.encode_one w inp eoutp eh es =
    Returns (Result (Windows.ir_input ir)
               (OutRange (behind eoutp ++ replicate n b0) (drop n (ahead eoutp)))
               es ok).
Proof.
  intros Hcp Hir Hok Hconv Hres Hn Hstored. unfold Windows.encode_one.
  apply Z.eqb_neq in Hcp. rewrite Hcp.
  rewrite at_end_false by (destruct (ahead eoutp); [cbn in Hn; lia | discriminate]).
  rewrite andb_false_r, negb_involutive, Hir, Hok. cbn [Windows.is_ok negb].
  rewrite andb_false_r, Hconv, Hres.
  assert ((Z.of_nat n =? 0) = false) as -> by (apply Z.eqb_neq; lia).
  rewrite andb_false_r, Hstored.
  unfold store_at_front. cbn [replicate length app take].
  rewrite windows_copy_units_first by lia. reflexivity.
Qed.

(** On a code page other than UTF-8, [encode_one] on Windows looks at the
    output before the input: with no output cell and a handler that is not
    ignorable it hands the handler [insufficient_output_space] with input,
    output and state as given, for every input, the empty one included;
    [decode_one] returns [ok] on an empty input before it looks at the
    output. *)
Theorem windows_output_check_comes_first inp eoutp eh es outp h s :
  Windows.determine_active_code_page w <> Windows.CP_UTF8 ->
  is_ignorable eh = false ->
  ahead eoutp = [] ->
  Windows.encode_one w inp eoutp eh es =
    Returns (invoke eh (Result inp eoutp es insufficient_output_space) empty_span)
  /\ Windows.decode_one w [] outp h s = Returns (Result [] outp s ok).
Proof.
  intros Hcp Hign Hout. apply Z.eqb_neq in Hcp. split.
  - unfold Windows.encode_one. rewrite Hcp, Hign, (at_end_true _ Hout). reflexivity.
  - unfold Windows.decode_one. rewrite Hcp. reflexivity.
Qed.

Lemma windows_decode_loop_keeps_state h s outp :
  forall (remaining state_count : nat) (buf init : list code_unit)
         (r : decode_result (Windows.crt w)),
    Windows.decode_loop w remaining state_count buf init outp h s = Returns r ->
    exists r0 : decode_result (Windows.crt w),
      (r = r0 \/ exists sp, is_ignorable h = false /\ r = invoke h r0 sp) /\
      state r0 = s.
Proof.
  assert (Hcall : forall b : bool, negb (is_ignorable h) && b = true ->
            is_ignorable h = false)
    by (intros b; destruct (is_ignorable h); [discriminate | reflexivity]).
  assert (Hfinish : forall wide res state_count buf init r,
    Windows.decode_finish w wide res state_count buf init outp h s = Returns r ->
    exists r0 : decode_result (Windows.crt w),
      (r = r0 \/ exists sp, is_ignorable h = false /\ r = invoke h r0 sp) /\
      state r0 = s).
  { intros wide res state_count buf init r. unfold Windows.decode_finish.
    destruct (negb (is_ignorable h) && _) eqn:Hc; intros [= <-].
    - eexists. split; [right; eexists; split; [exact (Hcall _ Hc) | reflexivity]|].
      reflexivity.
    - eexists. split; [left; reflexivity | reflexivity]. }
  induction remaining as [|remaining IH]; intros state_count buf init r;
    cbn [Windows.decode_loop].
  - destruct (negb (is_ignorable h)) eqn:Hc; [|discriminate].
    intros [= <-]. eexists.
    split; [right; eexists; split; [|reflexivity]|reflexivity].
    destruct (is_ignorable h); [discriminate | reflexivity].
  - destruct (_ =? 0); [|apply Hfinish].
    destruct (_ =? Windows.ERROR_NO_UNICODE_TRANSLATION).
    + destruct (negb (is_ignorable h) && exhausted init) eqn:Hc.
      * intros [= <-]. eexists.
        split; [right; eexists; split; [exact (Hcall _ Hc) | reflexivity]|].
        reflexivity.
      * destruct init as [|u init']; [discriminate | apply IH].
    + destruct (negb (is_ignorable h)) eqn:Hc; [|apply Hfinish].
      intros [= <-]. eexists.
      split; [right; eexists; split; [|reflexivity]|reflexivity].
      destruct (is_ignorable h); [discriminate | reflexivity].
Qed.

(** [decode_one] on Windows never changes the conversion state: every
    result it builds (returned as it is, or handed to the handler)
    carries the caller's state as it was given, so no shift state goes from
    one call to the next. *)
Theorem windows_decode_one_keeps_state inp outp h s r :
  Windows.decode_one w inp outp h s = Returns r ->
  exists r0 : decode_result (Windows.crt w),
    (r = r0 \/ exists sp, is_ignorable h = false /\ r = invoke h r0 sp) /\
    state r0 = s.
Proof.
  unfold Windows.decode_one.
  destruct (_ =? Windows.CP_UTF8).
  - destruct (negb (is_ignorable h) && _) eqn:Hc; intros [= <-].
    + eexists. split; [right; eexists; split; [|reflexivity]|reflexivity].
      destruct (is_ignorable h); [discriminate | reflexivity].
    + eexists. split; [left; reflexivity | reflexivity].
  - destruct inp as [|u init].
    + intros [= <-]. eexists. split; [left; reflexivity | reflexivity].
    + destruct (negb (is_ignorable h) && at_end outp) eqn:Hc.
      * intros [= <-]. eexists.
        split; [right; eexists; split; [|reflexivity]|reflexivity].
        destruct (is_ignorable h); [discriminate | reflexivity].
      * apply windows_decode_loop_keeps_state.
Qed.

(** [encode_one] on Windows never changes the conversion state: every
    result it builds (returned as it is, or handed to the handler)
    carries the caller's state as it was given. *)
Theorem windows_encode_one_keeps_state einp eoutp eh es er :
  Windows.encode_one w einp eoutp eh es = Returns er ->
  exists r0 : encode_result (Windows.crt w),
    (er = r0 \/ exists sp, is_ignorable eh = false /\ er = invoke eh r0 sp) /\
    state r0 = es.
Proof.
  unfold Windows.encode_one.
  assert (Hcall : forall b : bool, negb (is_ignorable eh) && b = true ->
            is_ignorable eh = false)
    by (intros b; destruct (is_ignorable eh); [discriminate | reflexivity]).
  destruct (_ =? Windows.CP_UTF8).
  { destruct (negb (is_ignorable eh) && _) eqn:Hc; intros [= <-].
    - eexists. split; [right; eexists; split; [exact (Hcall _ Hc)|reflexivity]|].
      reflexivity.
    - eexists. split; [left; reflexivity | reflexivity]. }
  destruct (negb (is_ignorable eh) && at_end eoutp) eqn:Hc1.
  { intros [= <-]. eexists.
    split; [right; eexists; split; [exact (Hcall _ Hc1)|reflexivity]|].
    reflexivity. }
  destruct (negb (is_ignorable eh) && negb _) eqn:Hc2.
  { intros [= <-]. eexists.
    split; [right; eexists; split; [exact (Hcall _ Hc2)|reflexivity]|].
    reflexivity. }
  destruct (negb (is_ignorable eh) && (_ =? 0)) eqn:Hc3.
  { intros [= <-]. eexists.
    split; [right; eexists; split; [exact (Hcall _ Hc3)|reflexivity]|].
    reflexivity. }
  destruct (Windows.copy_units _ _ _ _ _) as [o | o |] eqn:Hcopy; [| |discriminate].
  - intros [= <-]. eexists. split; [left; reflexivity | reflexivity].
  - assert (Hign : is_ignorable eh = false).
    { destruct (is_ignorable eh); [|reflexivity]. exfalso.
      cbn [negb] in Hcopy. exact (windows_copy_units_unchecked _ _ _ _ _ Hcopy). }
    intros [= <-]. eexists.
    split; [right; eexists; split; [exact Hign | reflexivity]|].
    reflexivity.
Qed.

(** The loop on Windows passes over every prefix for which
    [MultiByteToWideChar] fails with [ERROR_NO_UNICODE_TRANSLATION], taking
    one more unit each time. *)
Lemma windows_decode_loop_skips h s outp :
  forall (skipped : list code_unit) (remaining n : nat) (buf init : list code_unit),
    length buf = (n + length skipped + remaining)%nat ->
    (forall j, (j < length skipped)%nat ->
       Windows.conv_res
         (Windows.MultiByteToWideChar w (Windows.determine_active_code_page w)
            (take n buf ++ take j skipped)) = 0 /\
       Windows.conv_last_error
         (Windows.MultiByteToWideChar w (Windows.determine_active_code_page w)
            (take n buf ++ take j skipped)) = Windows.ERROR_NO_UNICODE_TRANSLATION) ->
    Windows.decode_loop w (length skipped + remaining) n buf (skipped ++ init) outp h s =
    Windows.decode_loop w remaining (n + length skipped)
      (take n buf ++ skipped ++ drop (n + length skipped) buf) init outp h s.
Proof.
  induction skipped as [|u skipped IH]; intros remaining n buf init Hlen Hpre.
  - cbn [length app Nat.add]. rewrite !Nat.add_0_r, take_drop. reflexivity.
  - cbn [length] in Hlen.
    destruct (Hpre 0%nat ltac:(cbn [length]; lia)) as [Hres Herr].
    rewrite take_0, app_nil_r in Hres, Herr.
    cbn [length app Nat.add Windows.decode_loop].
    rewrite Hres, Herr, !Z.eqb_refl. cbn [exhausted]. rewrite andb_false_r.
    rewrite IH.
    + rewrite take_next_unit by lia.
      rewrite drop_insert_lt by lia.
      replace (S n + length skipped)%nat with (n + S (length skipped))%nat by lia.
      rewrite <- app_assoc. reflexivity.
    + rewrite length_insert. lia.
    + intros j Hj. rewrite take_next_unit by lia. rewrite <- app_assoc.
      apply (Hpre (S j)). cbn [length]. lia.
Qed.

Lemma windows_first_unit (u : code_unit) (m : nat) :
  <[0%nat := u]> (replicate (S m) 0) = u :: replicate m 0.
Proof. reflexivity. Qed.

(** [decode_one] on Windows, on success: on a code page other than UTF-8,
    when [MultiByteToWideChar] fails with [ERROR_NO_UNICODE_TRANSLATION] on
    every proper prefix of [todo], converts [todo] itself, and the UTF-16
    step succeeds on the wide characters, [decode_one] takes exactly the
    units of [todo], leaves [tail] in the input and returns [ok] with the
    output of the UTF-16 step and the state as given.  [todo] has to be
    shorter than [max_code_units]. *)
Theorem windows_decode_one_success todo tail outp h s conv ir :
  Windows.determine_active_code_page w <> Windows.CP_UTF8 ->
  todo <> [] ->
  (length todo < max_code_units (Windows.crt w))%nat ->
  is_ignorable h = true \/ ahead outp <> [] ->
  (forall j, (0 < j < length todo)%nat ->
     Windows.conv_res
       (Windows.MultiByteToWideChar w (Windows.determine_active_code_page w)
          (take j todo)) = 0 /\
     Windows.conv_last_error
       (Windows.MultiByteToWideChar w (Windows.determine_active_code_page w)
          (take j todo)) = Windows.ERROR_NO_UNICODE_TRANSLATION) ->
  Windows.MultiByteToWideChar w (Windows.determine_active_code_page w) todo = conv ->
  Windows.conv_res conv <> 0 ->
  Windows.utf16_encode_one_wide w
    (take (Z.to_nat (Windows.conv_res conv))
       (store_at_front (Windows.conv_stored conv) (replicate 4 0)))
    outp (is_ignorable h) = ir ->
  Windows.ir_error_code ir = ok ->
  Windows.decode_one w (todo ++ tail) outp h s =
    Returns (Result tail (Windows.ir_output ir) s ok).
Proof.
  intros Hcp Hne Hfit Hcheck Hpre Hconv Hres Hir Hok. unfold Windows.decode_one.
  apply Z.eqb_neq in Hcp. rewrite Hcp.
  destruct todo as [|u0 skipped]; [congruence|]. cbn [app length] in *.
  assert (negb (is_ignorable h) && at_end outp = false) as ->.
  { destruct Hcheck as [-> | Hout]; [reflexivity|].
    rewrite (at_end_false _ Hout). apply andb_false_r. }
  destruct (max_code_units (Windows.crt w)) as [|m] eqn:Hm; [lia|].
  rewrite windows_first_unit. cbn [Nat.sub]. rewrite Nat.sub_0_r.
  replace m with (length skipped + (m - length skipped))%nat at 1 by lia.
  rewrite windows_decode_loop_skips.
  - cbn [take app]. rewrite take_0. cbn [app].
    destruct (m - length skipped)%nat as [|k] eqn:Hk; [lia|].
    cbn [Windows.decode_loop].
    assert (take (1 + length skipped)
              (u0 :: skipped ++ drop (1 + length skipped) (u0 :: replicate m 0))
            = u0 :: skipped) as ->.
    { change (u0 :: skipped ++ ?l) with ((u0 :: skipped) ++ l).
      apply take_app_length'. reflexivity. }
    rewrite Hconv. apply Z.eqb_neq in Hres. rewrite Hres.
    unfold Windows.decode_finish. rewrite negb_involutive, Hir, Hok.
    cbn [Windows.is_ok negb]. rewrite andb_false_r. reflexivity.
  - cbn [length]. rewrite length_replicate. lia.
  - intros j Hj. cbn [take app]. rewrite take_0. cbn [app].
    change (u0 :: take j skipped) with (take (S j) (u0 :: skipped)).
    apply Hpre. lia.
Qed.

(** The bound on Windows: on a code page other than UTF-8, with a handler
    that is not ignorable, when [MultiByteToWideChar] fails with
    [ERROR_NO_UNICODE_TRANSLATION] on every prefix of fewer than
    [max_code_units] units, [decode_one] takes [max_code_units] units and
    hands the handler [incomplete_sequence] with a span over them; the
    prefix of [max_code_units] units itself is never given to
    [MultiByteToWideChar]. *)
Theorem windows_decode_one_exhausts_bound inp outp h s :
  Windows.determine_active_code_page w <> Windows.CP_UTF8 ->
  is_ignorable h = false ->
  ahead outp <> [] ->
  (0 < max_code_units (Windows.crt w) <= length inp)%nat ->
  (forall j, (0 < j < max_code_units (Windows.crt w))%nat ->
     Windows.conv_res
       (Windows.MultiByteToWideChar w (Windows.determine_active_code_page w)
          (take j inp)) = 0 /\
     Windows.conv_last_error
       (Windows.MultiByteToWideChar w (Windows.determine_active_code_page w)
          (take j inp)) = Windows.ERROR_NO_UNICODE_TRANSLATION) ->
  Windows.decode_one w inp outp h s =
    Returns (invoke h
               (Result (drop (max_code_units (Windows.crt w)) inp) outp s
                  incomplete_sequence)
               (Span (take (max_code_units (Windows.crt w)) inp)
                  (max_code_units (Windows.crt w)))).
Proof.
  intros Hcp Hign Hout Hlong Hpre. unfold Windows.decode_one.
  apply Z.eqb_neq in Hcp. rewrite Hcp, Hign, (at_end_false _ Hout).
  cbn [negb andb].
  destruct inp as [|u0 rest]; [cbn in Hlong; lia|]. cbn [length] in Hlong.
  destruct (max_code_units (Windows.crt w)) as [|m] eqn:Hm; [lia|].
  rewrite windows_first_unit. cbn [Nat.sub take drop]. rewrite Nat.sub_0_r.
  assert (Hlen : length (take m rest) = m) by (rewrite length_take; lia).
  rewrite <- (take_drop m rest) at 1.
  replace m with (length (take m rest) + 0)%nat at 1 by lia.
  rewrite windows_decode_loop_skips.
  - cbn [Windows.decode_loop]. rewrite Hign. cbn [negb take app].
    rewrite take_0. cbn [app]. rewrite Hlen.
    cbn [Nat.add drop]. rewrite drop_replicate, Nat.sub_diag.
    cbn [replicate]. rewrite app_nil_r. reflexivity.
  - cbn [length]. rewrite length_replicate. lia.
  - intros j Hj. rewrite Hlen in Hj. cbn [take app]. rewrite take_0. cbn [app].
    rewrite take_take, Nat.min_l by lia.
    change (u0 :: take j rest) with (take (S j) (u0 :: rest)).
    apply Hpre. lia.
Qed.

End WindowsBranch.

(** ** The branch for Windows on concrete inputs *)

(** U+3042 on code page 932 is the units 130, 160; [encode_one] writes
    130, 130. *)
Lemma windows_encode_one_repeats_first_unit_witness :
  Windows.encode_one Windows.Cp932.runtime [12354; 65] (fresh_output 4 0) pass_through
    (new_encode_state (Windows.crt Windows.Cp932.runtime)) =
    Returns (Result [65] (OutRange [130; 130] [0; 0])
               (new_encode_state (Windows.crt Windows.Cp932.runtime)) ok).
Proof.
  apply (windows_encode_one_repeats_first_unit Windows.Cp932.runtime [12354; 65]
           (fresh_output 4 0) pass_through
           (new_encode_state (Windows.crt Windows.Cp932.runtime))
           (Windows.Cp932.utf16_encode_one [12354; 65] (OutRange [] (replicate 8 0)) false)
           (Windows.Cp932.WideCharToMultiByte 932 [12354]) 130 [160] 2).
  - vm_compute. discriminate.
  - reflexivity.
  - reflexivity.
  - reflexivity.
  - reflexivity.
  - cbn. lia.
  - reflexivity.
Defined.

(** An empty input and no output cell on code page 932. *)
Lemma windows_output_check_comes_first_witness :
  Windows.encode_one Windows.Cp932.runtime [] (OutRange [] []) pass_through
    (new_encode_state (Windows.crt Windows.Cp932.runtime)) =
    Returns (Result [] (OutRange [] [])
               (new_encode_state (Windows.crt Windows.Cp932.runtime))
               insufficient_output_space)
  /\ Windows.decode_one Windows.Cp932.runtime [] (OutRange [] []) pass_through
       (new_decode_state (Windows.crt Windows.Cp932.runtime)) =
     Returns (Result [] (OutRange [] [])
                (new_decode_state (Windows.crt Windows.Cp932.runtime)) ok).
Proof.
  apply (windows_output_check_comes_first Windows.Cp932.runtime [] (OutRange [] [])
           pass_through (new_encode_state (Windows.crt Windows.Cp932.runtime))
           (OutRange [] []) pass_through
           (new_decode_state (Windows.crt Windows.Cp932.runtime))).
  - vm_compute. discriminate.
  - reflexivity.
  - reflexivity.
Defined.

(** The units of U+3042 on code page 932, decoded with a state whose flag is
    set: the state comes back as it was. *)
Lemma windows_decode_one_keeps_state_witness :
  exists r0 : decode_result (Windows.crt Windows.Cp932.runtime),
    (Result [] (OutRange [12354] [])
       (DecodeState (Windows.crt Windows.Cp932.runtime) tt true) ok = r0 \/
     exists sp : span code_unit,
       is_ignorable
         (@pass_through (decode_result (Windows.crt Windows.Cp932.runtime)) code_unit)
         = false /\
       Result [] (OutRange [12354] [])
         (DecodeState (Windows.crt Windows.Cp932.runtime) tt true) ok
         = invoke pass_through r0 sp) /\
    state r0 = DecodeState (Windows.crt Windows.Cp932.runtime) tt true.
Proof.
  apply (windows_decode_one_keeps_state Windows.Cp932.runtime [130; 160]
           (fresh_output 1 7) pass_through
           (DecodeState (Windows.crt Windows.Cp932.runtime) tt true)).
  reflexivity.
Defined.

(** A code point code page 932 does not have (here U+00E9): the report
    carries the state as it was. *)
Lemma windows_encode_one_keeps_state_witness :
  exists r0 : encode_result (Windows.crt Windows.Cp932.runtime),
    (Result [] (OutRange [] [0])
       (new_encode_state (Windows.crt Windows.Cp932.runtime)) invalid_sequence = r0 \/
     exists sp : span code_point,
       is_ignorable
         (@pass_through (encode_result (Windows.crt Windows.Cp932.runtime)) code_point)
         = false /\
       Result [] (OutRange [] [0])
         (new_encode_state (Windows.crt Windows.Cp932.runtime)) invalid_sequence
         = invoke pass_through r0 sp) /\
    state r0 = new_encode_state (Windows.crt Windows.Cp932.runtime).
Proof.
  apply (windows_encode_one_keeps_state Windows.Cp932.runtime [233]
           (fresh_output 1 0) pass_through
           (new_encode_state (Windows.crt Windows.Cp932.runtime))).
  reflexivity.
Defined.

(** The units 130, 160, 65 on code page 932. *)
Lemma windows_decode_one_success_witness :
  Windows.decode_one Windows.Cp932.runtime [130; 160; 65] (fresh_output 2 7)
    pass_through (new_decode_state (Windows.crt Windows.Cp932.runtime)) =
    Returns (Result [65] (OutRange [12354] [7])
               (new_decode_state (Windows.crt Windows.Cp932.runtime)) ok).
Proof.
  apply (windows_decode_one_success Windows.Cp932.runtime [130; 160] [65]
           (fresh_output 2 7) pass_through
           (new_decode_state (Windows.crt Windows.Cp932.runtime))
           (Windows.Cp932.MultiByteToWideChar 932 [130; 160])
           (Windows.Cp932.utf16_encode_one_wide [12354] (fresh_output 2 7) false)).
  - vm_compute. discriminate.
  - discriminate.
  - cbn. lia.
  - right. discriminate.
  - intros j Hj. assert (j = 1%nat) as -> by (cbn in Hj; lia).
    split; reflexivity.
  - reflexivity.
  - vm_compute. discriminate.
  - reflexivity.
  - reflexivity.
Defined.

(** Five lead bytes and a letter on code page 932, where [max_code_units]
    is 5. *)
Lemma windows_decode_one_exhausts_bound_witness :
  Windows.decode_one Windows.Cp932.runtime [130; 130; 130; 130; 130; 65]
    (fresh_output 1 7) pass_through
    (new_decode_state (Windows.crt Windows.Cp932.runtime)) =
    Returns (Result [65] (OutRange [] [7])
               (new_decode_state (Windows.crt Windows.Cp932.runtime))
               incomplete_sequence).
Proof.
  apply (windows_decode_one_exhausts_bound Windows.Cp932.runtime
           [130; 130; 130; 130; 130; 65] (fresh_output 1 7) pass_through
           (new_decode_state (Windows.crt Windows.Cp932.runtime))).
  - vm_compute. discriminate.
  - reflexivity.
  - discriminate.
  - cbn. lia.
  - intros j Hj. change (max_code_units (Windows.crt Windows.Cp932.runtime))
      with 5%nat in Hj.
    do 5 (destruct j as [|j]; [try lia; split; reflexivity|]). lia.
Defined.

(** C4: the two builds differ on an empty input.  With no output cell and a
    handler that is called, [encode_one] of the branch for Windows (here on
    code page 932) returns [insufficient_output_space] with nothing read or
    written, while [encode_one] of the build on the C runtime and
    [decode_one] of both builds return [ok] on the same arguments. *)
Theorem windows_encode_one_rejects_empty_input :
  Windows.encode_one Windows.Cp932.runtime [] (OutRange [] []) pass_through
    (new_encode_state (Windows.crt Windows.Cp932.runtime)) =
    Returns (Result [] (OutRange [] [])
               (new_encode_state (Windows.crt Windows.Cp932.runtime))
               insufficient_output_space)
  /\ encode_one (Windows.crt Windows.Cp932.runtime) [] (OutRange [] []) pass_through
       (new_encode_state (Windows.crt Windows.Cp932.runtime)) =
     Returns (Result [] (OutRange [] [])
                (new_encode_state (Windows.crt Windows.Cp932.runtime)) ok)
  /\ decode_one (Windows.crt Windows.Cp932.runtime) [] (OutRange [] []) pass_through
       (new_decode_state (Windows.crt Windows.Cp932.runtime)) =
     Returns (Result [] (OutRange [] [])
                (new_decode_state (Windows.crt Windows.Cp932.runtime)) ok)
  /\ Windows.decode_one Windows.Cp932.runtime [] (OutRange [] []) pass_through
       (new_decode_state (Windows.crt Windows.Cp932.runtime)) =
     Returns (Result [] (OutRange [] [])
                (new_decode_state (Windows.crt Windows.Cp932.runtime)) ok).
Proof. repeat split; reflexivity. Qed.
